(** * dca_alerts: the drop analyzer and the ATH store

    A shallow embedding of [dca_alerts/market/analyzer.py],
    [dca_alerts/persistence/ath_store.py] and the records of
    [dca_alerts/models.py], followed by the properties of the design
    document that concern them.

    Modelling conventions.
    - A Python call that may raise returns a [result]; the exception classes
      that the two modules can meet are the constructors of [exn], and an
      [except] clause is a test on that class.
    - [decimal.Decimal] is a sign, a coefficient and an exponent, as in
      CPython.  Only finite values are modelled.  Arithmetic is exact: the
      quotient of two decimals is a rational number, and [quantize] rounds
      that rational.  The working precision of the decimal context (28
      significant digits by default) is not modelled, and neither is the sign
      of a zero result.
    - [datetime.date] and [datetime.datetime] are records of their fields;
      a time zone is its offset from UTC in whole minutes.  [isoformat] is the
      printer of CPython; [fromisoformat] accepts the strings that [isoformat]
      prints and answers [ValueError] on every other string.
    - The backing file holds either a JSON text, kept as the syntax tree that
      [json.load] reads from it, or bytes that are no JSON text, or bytes that
      are no text at all.  JSON numbers are integers.
    - File-system failures are decided by an oracle [io] given to each call;
      [datetime.now] is an argument of [analyze]; logging is left out.
    - Python does not check annotations: the argument of
      [DropAnalyzer.__init__] is a number, an [int] or a finite [float]. *)

From Stdlib Require Import ZArith NArith QArith Qround Qabs Lia Lqa List String Ascii Bool.
Import ListNotations.

#[local] Set Warnings "-register-all".

#[local] Open Scope Z_scope.
#[local] Open Scope list_scope.

(** ** Python results and exceptions *)

Module Py.

Inductive exn : Type :=
| KeyError
| ValueError
| TypeError
| InvalidOperation      (* decimal.InvalidOperation, an ArithmeticError *)
| JSONDecodeError       (* json.JSONDecodeError, a ValueError *)
| UnicodeDecodeError    (* a ValueError *)
| OSError
| UnboundLocalError     (* a NameError *)
| ATHStoreError.

Definition exn_eqb (a b : exn) : bool :=
  match a, b with
  | KeyError, KeyError | ValueError, ValueError | TypeError, TypeError
  | InvalidOperation, InvalidOperation | JSONDecodeError, JSONDecodeError
  | UnicodeDecodeError, UnicodeDecodeError | OSError, OSError
  | UnboundLocalError, UnboundLocalError | ATHStoreError, ATHStoreError => true
  | _, _ => false
  end.

(** [issubclass e cls]: an exception of class [e] is caught by
    [except cls]. *)
Definition issubclass (e cls : exn) : bool :=
  match e, cls with
  | JSONDecodeError, ValueError => true
  | UnicodeDecodeError, ValueError => true
  | _, _ => exn_eqb e cls
  end.

(** [except (c1, c2, ...)] *)
Definition caught_by (e : exn) (classes : list exn) : bool :=
  existsb (issubclass e) classes.

Inductive result (A : Type) : Type :=
| Ok (a : A)
| Raise (e : exn).
Arguments Ok {A} a.
Arguments Raise {A} e.

Definition bind {A B} (m : result A) (k : A -> result B) : result B :=
  match m with
  | Ok a => k a
  | Raise e => Raise e
  end.

(** A number as Python passes it around: an [int], or a finite [float],
    which is [n / 2^k] for some [n] that is odd when [k] is not zero. *)
Inductive number : Type :=
| PyInt (n : Z)
| PyFloat (n : Z) (k : N).

Definition pow2 (k : N) : positive :=
  match k with
  | N0 => 1%positive
  | Npos p => Pos.pow 2 p
  end.

Definition number_value (x : number) : Q :=
  match x with
  | PyInt n => inject_Z n
  | PyFloat n k => Qmake n (pow2 k)
  end.

End Py.

Import Py.

Declare Scope py_scope.
Delimit Scope py_scope with py.
Notation "x <- m ;; k" := (Py.bind m (fun x => k))
  (at level 61, m at next level, right associativity) : py_scope.

(** ** decimal.Decimal *)

Module Dec.

(** The fields [_sign], [_int] and [_exp] of a finite [Decimal]: the value
    is [(-1)^_sign * _int * 10^_exp]. *)
Record Decimal : Type := mkDecimal {
  _sign : bool;
  _int : N;
  _exp : Z
}.

Inductive rounding : Type :=
| ROUND_HALF_EVEN
| ROUND_DOWN.

Definition signed (d : Decimal) : Z :=
  if _sign d then - Z.of_N (_int d) else Z.of_N (_int d).

(** The rational number a decimal denotes. *)
Definition to_Q (d : Decimal) : Q :=
  match _exp d with
  | Z0 => inject_Z (signed d)
  | Zpos p => inject_Z (signed d * Z.pow_pos 10 p)
  | Zneg p => Qmake (signed d) (Pos.pow 10 p)
  end.

(** [Decimal(n)] for a Python [int]. *)
Definition of_int (n : Z) : Decimal :=
  mkDecimal (n <? 0) (Z.abs_N n) 0.

(** [Decimal(x)] for a number: a [float] is converted exactly,
    [n / 2^k] being [n * 5^k / 10^k]. *)
Definition of_number (x : number) : Decimal :=
  match x with
  | PyInt n => of_int n
  | PyFloat n k => mkDecimal (n <? 0) (Z.abs_N n * 5 ^ k)%N (- Z.of_N k)
  end.

(** [Decimal("0")] *)
Definition zero : Decimal := mkDecimal false 0 0.

(** Comparisons are comparisons of the values. *)
Definition compare (a b : Decimal) : comparison := Qcompare (to_Q a) (to_Q b).

Definition eqb (a b : Decimal) : bool :=
  match compare a b with Eq => true | _ => false end.
Definition ltb (a b : Decimal) : bool :=
  match compare a b with Lt => true | _ => false end.
Definition leb (a b : Decimal) : bool :=
  match compare a b with Gt => false | _ => true end.
Definition gtb (a b : Decimal) : bool := ltb b a.
Definition geb (a b : Decimal) : bool := leb b a.

(** [abs(d)] *)
Definition abs (d : Decimal) : Decimal := mkDecimal false (_int d) (_exp d).

(** Rounding a rational to an integer. *)
Definition round_down (x : Q) : Z :=
  if Qle_bool 0 x then Qfloor x else Qceiling x.

Definition round_half_even (x : Q) : Z :=
  let f := Qfloor x in
  match Qcompare (x - inject_Z f) (1 # 2) with
  | Lt => f
  | Gt => f + 1
  | Eq => if Z.even f then f else f + 1
  end.

Definition round (r : rounding) (x : Q) : Z :=
  match r with
  | ROUND_HALF_EVEN => round_half_even x
  | ROUND_DOWN => round_down x
  end.

(** [10^k] as a rational. *)
Definition pow10 (k : Z) : Q :=
  match k with
  | Z0 => 1
  | Zpos p => inject_Z (Z.pow_pos 10 p)
  | Zneg p => Qmake 1 (Pos.pow 10 p)
  end.

(** [x.quantize(Decimal((0, (1,), e)), rounding=r)]: the decimal of
    exponent [e] nearest to [x] in the direction [r]. *)
Definition quantize (r : rounding) (x : Q) (e : Z) : Decimal :=
  let c := round r (x * pow10 (- e)) in
  mkDecimal (c <? 0) (Z.abs_N c) e.

(** [int(d)]: truncation towards zero. *)
Definition to_int (d : Decimal) : Z :=
  match _exp d with
  | Z0 => signed d
  | Zpos p => signed d * Z.pow_pos 10 p
  | Zneg p => Z.quot (signed d) (Z.pow_pos 10 p)
  end.

End Dec.

Abbreviation Decimal := Dec.Decimal.

(** ** Decimal digits in text *)

Module Text.

#[local] Open Scope N_scope.

Definition digit_char (d : N) : ascii := ascii_of_N (48 + d).

Definition digit_val (c : ascii) : option N :=
  let n := N_of_ascii c in
  if (48 <=? n) && (n <=? 57) then Some (n - 48) else None.

(** The decimal digits of [n], most significant first; ["0"] for zero. *)
Fixpoint digits_fuel (fuel : nat) (n : N) (acc : list N) : list N :=
  match fuel with
  | O => n :: acc
  | S f => if n <? 10 then n :: acc
           else digits_fuel f (n / 10) (n mod 10 :: acc)
  end.

Definition digits (n : N) : list N :=
  digits_fuel (N.to_nat (N.size n)) n [].

(** [int(s)] for a string of digits. *)
Definition value (ds : list N) : N :=
  fold_left (fun a d => 10 * a + d) ds 0.

(** [n] printed on exactly [w] digits (["%0wd"] for [n < 10^w]). *)
Fixpoint fixed (w : nat) (n : N) : list N :=
  match w with
  | O => []
  | S w' => fixed w' (n / 10) ++ [n mod 10]
  end.

Definition pad (w : nat) (n : N) : list ascii := map digit_char (fixed w n).

(** The longest prefix made of digits, and what follows it. *)
Fixpoint span_digits (s : list ascii) : list N * list ascii :=
  match s with
  | [] => ([], [])
  | c :: r =>
      match digit_val c with
      | Some d => let '(ds, rest) := span_digits r in (d :: ds, rest)
      | None => ([], s)
      end
  end.

(** Exactly [w] digits, and what follows them. *)
Fixpoint take_digits (w : nat) (s : list ascii) : option (list N * list ascii) :=
  match w with
  | O => Some ([], s)
  | S w' =>
      match s with
      | [] => None
      | c :: r =>
          match digit_val c with
          | Some d =>
              match take_digits w' r with
              | Some (ds, rest) => Some (d :: ds, rest)
              | None => None
              end
          | None => None
          end
      end
  end.

Definition take_number (w : nat) (s : list ascii) : option (N * list ascii) :=
  match take_digits w s with
  | Some (ds, rest) => Some (value ds, rest)
  | None => None
  end.

(** One given character, and what follows it. *)
Definition expect (c : ascii) (s : list ascii) : option (list ascii) :=
  match s with
  | c' :: r => if Ascii.eqb c c' then Some r else None
  | [] => None
  end.

(** An optional sign: [true] for ["-"]. *)
Definition take_sign (s : list ascii) : bool * list ascii :=
  match s with
  | c :: r =>
      if Ascii.eqb c "-" then (true, r)
      else if Ascii.eqb c "+" then (false, r)
      else (false, s)
  | [] => (false, s)
  end.

(** ["%+d" % k] *)
Definition signed_chars (k : Z) : list ascii :=
  (if (k <? 0)%Z then "-"%char else "+"%char)
    :: map digit_char (digits (Z.abs_N k)).

End Text.

(** ** str(Decimal) and Decimal(str) *)

Module DecText.

Import Dec Text.

(** [Decimal.__str__] (scientific notation, capital [E]). *)
Definition str_chars (d : Decimal) : list ascii :=
  let sign := if _sign d then ["-"%char] else [] in
  let ds := digits (_int d) in
  let n := Z.of_nat (List.length ds) in
  let leftdigits := _exp d + n in
  let dotplace :=
    if (_exp d <=? 0) && (-6 <? leftdigits) then leftdigits else 1 in
  let intpart :=
    if dotplace <=? 0 then [0%N]
    else if n <=? dotplace then ds ++ repeat 0%N (Z.to_nat (dotplace - n))
    else firstn (Z.to_nat dotplace) ds in
  let fracpart :=
    if dotplace <=? 0
    then "."%char :: map digit_char (repeat 0%N (Z.to_nat (- dotplace)) ++ ds)
    else if n <=? dotplace then []
    else "."%char :: map digit_char (skipn (Z.to_nat dotplace) ds) in
  let exp :=
    if leftdigits =? dotplace then []
    else "E"%char :: signed_chars (leftdigits - dotplace) in
  sign ++ map digit_char intpart ++ fracpart ++ exp.

Definition str (d : Decimal) : string := string_of_list_ascii (str_chars d).

(** The numeric strings [Decimal(s)] accepts:
    [sign? (digits [. digits?] | . digits) ([eE] sign? digits)?].
    White space around the number, underscores between digits and the
    names of the special values are left out. *)
Definition of_chars (s : list ascii) : option Decimal :=
  let '(sg, s1) := take_sign s in
  let '(ip, s2) := span_digits s1 in
  let '(fp, s3) :=
    match s2 with
    | c :: r => if Ascii.eqb c "." then span_digits r else ([], s2)
    | [] => ([], s2)
    end in
  match ip ++ fp with
  | [] => None
  | coeff =>
      let e0 := - Z.of_nat (List.length fp) in
      match s3 with
      | [] => Some (mkDecimal sg (value coeff) e0)
      | c :: r =>
          if Ascii.eqb c "E" || Ascii.eqb c "e" then
            let '(esg, r1) := take_sign r in
            match span_digits r1 with
            | (d :: ed, []) =>
                let e := Z.of_N (value (d :: ed)) in
                Some (mkDecimal sg (value coeff) ((if esg then - e else e) + e0))
            | _ => None
            end
          else None
      end
  end.

(** [Decimal(s)]: a string that is no number raises
    [decimal.InvalidOperation]. *)
Definition of_str (s : string) : result Decimal :=
  match of_chars (list_ascii_of_string s) with
  | Some d => Ok d
  | None => Raise InvalidOperation
  end.

End DecText.

(** ** datetime.date and datetime.datetime *)

Module Cal.

Import Text.
#[local] Open Scope N_scope.

Record date : Type := mkDate {
  year : N;
  month : N;
  day : N
}.

(** [tz] is [None] for a naive datetime and [Some m] for an aware one whose
    [utcoffset()] is [m] minutes. *)
Record datetime : Type := mkDatetime {
  on : date;
  hour : N;
  minute : N;
  second : N;
  microsecond : N;
  tz : option Z
}.

Definition is_leap (y : N) : bool :=
  (y mod 4 =? 0) && (negb (y mod 100 =? 0) || (y mod 400 =? 0)).

Definition days_in_month (y m : N) : N :=
  if m =? 2 then (if is_leap y then 29 else 28)
  else if (m =? 4) || (m =? 6) || (m =? 9) || (m =? 11) then 30
  else 31.

(** The values the constructors [date(...)] and [datetime(...)] accept. *)
Definition valid_date (d : date) : bool :=
  (1 <=? year d) && (year d <=? 9999) &&
  (1 <=? month d) && (month d <=? 12) &&
  (1 <=? day d) && (day d <=? days_in_month (year d) (month d)).

Definition valid_offset (o : option Z) : bool :=
  match o with
  | None => true
  | Some m => ((-1440 <? m) && (m <? 1440))%Z
  end.

Definition valid_datetime (t : datetime) : bool :=
  valid_date (on t) && (hour t <? 24) && (minute t <? 60) &&
  (second t <? 60) && (microsecond t <? 1000000) && valid_offset (tz t).

(** [date.isoformat()]: ["%04d-%02d-%02d"]. *)
Definition date_chars (d : date) : list ascii :=
  pad 4 (year d) ++ "-"%char :: pad 2 (month d) ++ "-"%char :: pad 2 (day d).

Definition date_isoformat (d : date) : string :=
  string_of_list_ascii (date_chars d).

(** [_format_offset]: ["+HH:MM"] or ["-HH:MM"]. *)
Definition offset_chars (o : option Z) : list ascii :=
  match o with
  | None => []
  | Some m =>
      let a := Z.abs_N m in
      (if (m <? 0)%Z then "-"%char else "+"%char)
        :: pad 2 (a / 60) ++ ":"%char :: pad 2 (a mod 60)
  end.

(** [datetime.isoformat()]: the date, ["T"], ["%02d:%02d:%02d"], the
    microseconds when they are not zero, the offset of an aware value. *)
Definition datetime_chars (t : datetime) : list ascii :=
  date_chars (on t) ++ "T"%char
    :: pad 2 (hour t) ++ ":"%char :: pad 2 (minute t) ++ ":"%char :: pad 2 (second t)
    ++ (if microsecond t =? 0 then [] else "."%char :: pad 6 (microsecond t))
    ++ offset_chars (tz t).

Definition datetime_isoformat (t : datetime) : string :=
  string_of_list_ascii (datetime_chars t).

Definition obind {A B} (m : option A) (k : A -> option B) : option B :=
  match m with Some a => k a | None => None end.

(** A date at the head of [s], and what follows it. *)
Definition take_date (s : list ascii) : option (date * list ascii) :=
  obind (take_number 4 s) (fun '(y, s) =>
  obind (expect "-" s) (fun s =>
  obind (take_number 2 s) (fun '(m, s) =>
  obind (expect "-" s) (fun s =>
  obind (take_number 2 s) (fun '(d, s) =>
  let r := mkDate y m d in
  if valid_date r then Some (r, s) else None))))).

(** [.ffffff], when present. *)
Definition take_fraction (s : list ascii) : option (N * list ascii) :=
  match s with
  | c :: r => if Ascii.eqb c "." then take_number 6 r else Some (0, s)
  | [] => Some (0, s)
  end.

(** The offset [+HH:MM] or [-HH:MM] up to the end of the string, or
    nothing. *)
Definition take_offset (s : list ascii) : option (option Z) :=
  match s with
  | [] => Some None
  | c :: r =>
      obind (if Ascii.eqb c "-" then Some true
             else if Ascii.eqb c "+" then Some false else None) (fun neg =>
      obind (take_number 2 r) (fun '(hh, r) =>
      obind (expect ":" r) (fun r =>
      obind (take_number 2 r) (fun '(mm, r) =>
      match r with
      | [] =>
          let m := Z.of_N (hh * 60 + mm) in
          if (hh <? 24) && (mm <? 60)
          then Some (Some (if neg then (- m)%Z else m))
          else None
      | _ :: _ => None
      end))))
  end.

Definition datetime_of_chars (s : list ascii) : option datetime :=
  obind (take_date s) (fun '(d, s) =>
  match s with
  | [] => None
  | _sep :: s =>
      obind (take_number 2 s) (fun '(hh, s) =>
      obind (expect ":" s) (fun s =>
      obind (take_number 2 s) (fun '(mi, s) =>
      obind (expect ":" s) (fun s =>
      obind (take_number 2 s) (fun '(ss, s) =>
      obind (take_fraction s) (fun '(us, s) =>
      obind (take_offset s) (fun o =>
      let t := mkDatetime d hh mi ss us o in
      if valid_datetime t then Some t else None)))))))
  end).

Definition date_of_chars (s : list ascii) : option date :=
  match take_date s with
  | Some (d, []) => Some d
  | _ => None
  end.

(** [date.fromisoformat(s)] and [datetime.fromisoformat(s)] for a string
    [s]: [ValueError] when [s] is not an ISO date. *)
Definition date_fromisoformat (s : string) : result date :=
  match date_of_chars (list_ascii_of_string s) with
  | Some d => Ok d
  | None => Raise ValueError
  end.

Definition datetime_fromisoformat (s : string) : result datetime :=
  match datetime_of_chars (list_ascii_of_string s) with
  | Some t => Ok t
  | None => Raise ValueError
  end.

End Cal.

(** ** models.py *)

Module IndexSymbol.

Inductive t : Type := SP500 | NASDAQ100 | RUSSELL2000.

Definition value (s : t) : string :=
  match s with
  | SP500 => "^GSPC"
  | NASDAQ100 => "^NDX"
  | RUSSELL2000 => "^RUT"
  end.

(** [for idx in IndexSymbol]: the members in definition order. *)
Definition members : list t := [SP500; NASDAQ100; RUSSELL2000].

Definition eqb (a b : t) : bool :=
  match a, b with
  | SP500, SP500 | NASDAQ100, NASDAQ100 | RUSSELL2000, RUSSELL2000 => true
  | _, _ => false
  end.

End IndexSymbol.

Inductive Recommendation : Type := BUY | HOLD.

Module IndexData.
Record t : Type := mk {
  symbol : IndexSymbol.t;
  current_price : Decimal;
  fetched_at : Cal.datetime;
  market_date : Cal.date
}.
End IndexData.

Module ATHRecord.
Record t : Type := mk {
  symbol : IndexSymbol.t;
  ath_value : Decimal;
  ath_date : Cal.date;
  updated_at : Cal.datetime
}.
End ATHRecord.

Module AnalysisResult.
Record t : Type := mk {
  symbol : IndexSymbol.t;
  current_price : Decimal;
  ath_value : Decimal;
  ath_date : Cal.date;
  gap_percent : Decimal;
  drop_tier : Z;
  recommendation : Recommendation;
  is_new_ath : bool
}.
End AnalysisResult.

(** ** market/analyzer.py *)

Module DropAnalyzer.

Import Dec.

Record t : Type := mk { _increment : Decimal }.

(** [drop_increment] is annotated [int]; the annotation is not checked, and
    the comparisons and [Decimal] take a [float] as well. *)
Definition __init__ (drop_increment : number) : result t :=
  if Qle_bool (number_value drop_increment) 0
     || negb (Qle_bool (number_value drop_increment) (inject_Z 100))
  then Raise ValueError
  else Ok (mk (of_number drop_increment)).

Definition calculate_gap_percent (self : t) (current ath : Decimal) : Decimal :=
  if eqb ath zero then zero
  else
    let gap := (((to_Q current - to_Q ath) / to_Q ath) * inject_Z 100)%Q in
    quantize ROUND_HALF_EVEN gap (-2).

Definition determine_drop_tier (self : t) (gap_percent : Decimal) : Z :=
  if geb gap_percent zero then 0
  else
    let drop := abs gap_percent in
    let tier :=
      to_int (quantize ROUND_DOWN (to_Q drop / to_Q (_increment self))%Q 0) in
    tier * to_int (_increment self).

(** [now] is the value of [datetime.now(timezone.utc)] at the call. *)
Definition analyze (self : t) (index_data : IndexData.t)
    (ath_record : option ATHRecord.t) (now : Cal.datetime)
  : AnalysisResult.t * option ATHRecord.t :=
  let current := IndexData.current_price index_data in
  let as_new_ath :=
    let new_ath :=
      ATHRecord.mk (IndexData.symbol index_data) current
        (IndexData.market_date index_data) now in
    let result :=
      AnalysisResult.mk (IndexData.symbol index_data) current current
        (IndexData.market_date index_data) zero 0 HOLD true in
    (result, Some new_ath) in
  match ath_record with
  | None => as_new_ath
  | Some ath_record =>
      let ath_value := ATHRecord.ath_value ath_record in
      let ath_date := ATHRecord.ath_date ath_record in
      if gtb current ath_value then as_new_ath
      else
        let gap_percent := calculate_gap_percent self current ath_value in
        let drop_tier := determine_drop_tier self gap_percent in
        let recommendation := if drop_tier >? 0 then BUY else HOLD in
        let result :=
          AnalysisResult.mk (IndexData.symbol index_data) current ath_value
            ath_date gap_percent drop_tier recommendation false in
        (result, None)
  end.

End DropAnalyzer.

(** ** Python dictionaries and JSON values *)

Module Dict.

Section Dict.
Context {K V : Type} (eqb : K -> K -> bool).

(** A [dict] in insertion order. *)
Definition t : Type := list (K * V).

Fixpoint get (d : t) (k : K) : option V :=
  match d with
  | [] => None
  | (k', v) :: r => if eqb k k' then Some v else get r k
  end.

(** [d[k] = v]: the value is replaced where the key stands, a new key
    goes to the end. *)
Fixpoint set (d : t) (k : K) (v : V) : t :=
  match d with
  | [] => [(k, v)]
  | (k', v') :: r => if eqb k k' then (k, v) :: r else (k', v') :: set r k v
  end.

(** The dictionary built from pairs read in order: a repeated key keeps
    its place and takes the last value. *)
Definition of_pairs (l : list (K * V)) : t :=
  fold_left (fun d kv => set d (fst kv) (snd kv)) l [].

Definition keys (d : t) : list K := map fst d.

End Dict.

End Dict.

Module Json.

#[local] Open Scope string_scope.

(** The value [json.load] returns; the members of an object are kept as
    they are written, and read through [Dict.of_pairs]. *)
Inductive json : Type :=
| JNull
| JBool (b : bool)
| JInt (n : Z)
| JStr (s : string)
| JArr (items : list json)
| JObj (members : list (string * json)).

(** [v[k]] for a string [k]. *)
Definition getitem (v : json) (k : string) : result json :=
  match v with
  | JObj members =>
      match Dict.get String.eqb (Dict.of_pairs String.eqb members) k with
      | Some x => Ok x
      | None => Raise KeyError
      end
  | _ => Raise TypeError
  end.

(** [Decimal(v)]: a string is parsed, an [int] or [bool] is converted,
    [None] and a [dict] are refused with [TypeError], a [list] that is no
    [(sign, digits, exponent)] triple with [ValueError]. *)
Definition to_Decimal (v : json) : result Decimal :=
  match v with
  | JStr s => DecText.of_str s
  | JInt n => Ok (Dec.of_int n)
  | JBool b => Ok (Dec.of_int (if b then 1 else 0))
  | JArr _ => Raise ValueError
  | JNull | JObj _ => Raise TypeError
  end.

(** [date.fromisoformat(v)] and [datetime.fromisoformat(v)]: an argument
    that is no [str] raises [TypeError]. *)
Definition to_date (v : json) : result Cal.date :=
  match v with
  | JStr s => Cal.date_fromisoformat s
  | _ => Raise TypeError
  end.

Definition to_datetime (v : json) : result Cal.datetime :=
  match v with
  | JStr s => Cal.datetime_fromisoformat s
  | _ => Raise TypeError
  end.

End Json.

(** ** persistence/ath_store.py *)

Module ATHStore.

Import Json.
#[local] Open Scope string_scope.

(** What the file at a path holds. *)
Inductive contents : Type :=
| Text (j : json)   (* a JSON text; [j] is what [json.load] reads *)
| NotJson           (* text that is no JSON document *)
| NotText.          (* bytes that the text decoder refuses *)

(** The directory of the store: the file at [self._path], if any, and the
    [.ath_*.tmp] files that earlier calls left behind. *)
Record fs : Type := mkFs {
  target : option contents;
  strays : list contents
}.

(** The steps of [_save] that touch the file system. *)
Inductive step : Type := Mkdir | Create | Dump | Close | Replace.

Definition step_eqb (a b : step) : bool :=
  match a, b with
  | Mkdir, Mkdir | Create, Create | Dump, Dump | Close, Close
  | Replace, Replace => true
  | _, _ => false
  end.

(** The oracle of one call: whether reading [self._path] fails with
    [OSError], and which step of [_save], if any, does. *)
Record io : Type := mkIo {
  read_fails : bool;
  write_fails : option step
}.

Definition no_fault : io := mkIo false None.

Definition fails (w : io) (s : step) : bool :=
  match write_fails w with
  | Some s' => step_eqb s s'
  | None => false
  end.

Definition data_t : Type := @Dict.t string json.
Definition records_t : Type := @Dict.t IndexSymbol.t ATHRecord.t.

Definition _load (w : io) (st : fs) : result data_t :=
  match target st with
  | None => Ok []
  | Some c =>
      let body : result data_t :=
        if read_fails w then Raise OSError
        else
          match c with
          | NotText => Raise UnicodeDecodeError
          | NotJson => Raise JSONDecodeError
          | Text (JObj members) => Ok (Dict.of_pairs String.eqb members)
          | Text _ => Ok []
          end in
      match body with
      | Ok data => Ok data
      | Raise e =>
          if issubclass e JSONDecodeError then Ok []
          else if issubclass e OSError then Ok []
          else Raise e
      end
  end.

(** The body of the [try] in [get_all]: the three fields are read and
    converted from left to right. *)
Definition parse_record (idx : IndexSymbol.t) (record_data : json)
  : result ATHRecord.t :=
  (v <- getitem record_data "ath_value" ;;
   ath_value <- to_Decimal v ;;
   v <- getitem record_data "ath_date" ;;
   ath_date <- to_date v ;;
   v <- getitem record_data "updated_at" ;;
   updated_at <- to_datetime v ;;
   Ok (ATHRecord.mk idx ath_value ath_date updated_at))%py.

(** The loop over [data.items()]; the inner loop over [IndexSymbol] stops
    at the first member whose value is the key. *)
Fixpoint get_all_loop (items : list (string * json)) (records : records_t)
  : result records_t :=
  match items with
  | [] => Ok records
  | (symbol_value, record_data) :: rest =>
      match find (fun idx => String.eqb (IndexSymbol.value idx) symbol_value)
                 IndexSymbol.members with
      | None => get_all_loop rest records
      | Some idx =>
          match parse_record idx record_data with
          | Ok r => get_all_loop rest (Dict.set IndexSymbol.eqb records idx r)
          | Raise e =>
              if caught_by e [KeyError; ValueError]
              then get_all_loop rest records
              else Raise e
          end
      end
  end.

Definition get_all (w : io) (st : fs) : result records_t :=
  (data <- _load w st ;; get_all_loop data [])%py.

Definition get (w : io) (st : fs) (symbol : IndexSymbol.t)
  : result (option ATHRecord.t) :=
  (records <- get_all w st ;; Ok (Dict.get IndexSymbol.eqb records symbol))%py.

(** The state of [_save] inside its [try]: the file system, the temporary
    file of this call while it exists, and the local variable [temp_path],
    which is unbound until its assignment. *)
Record frame : Type := mkFrame {
  disk : fs;
  temp_file : option contents;
  temp_path : option unit
}.

Definition try_body (w : io) (st : fs) (data : data_t) : frame * result unit :=
  (* tempfile.NamedTemporaryFile(..., delete=False) *)
  if fails w Create then (mkFrame st None None, Raise OSError)
  else
    (* json.dump(data, f, indent=2) *)
    if fails w Dump then (mkFrame st (Some NotJson) None, Raise OSError)
    else
      (* temp_path = Path(f.name), then the file is closed *)
      if fails w Close
      then (mkFrame st (Some NotJson) (Some tt), Raise OSError)
      else
        (* temp_path.replace(self._path) *)
        if fails w Replace
        then (mkFrame st (Some (Text (JObj data))) (Some tt), Raise OSError)
        else (mkFrame (mkFs (Some (Text (JObj data))) (strays st)) None (Some tt),
              Ok tt).

(** A temporary file that outlives the call stays in the directory. *)
Definition leave (f : frame) : fs :=
  match temp_file f with
  | Some c => mkFs (target (disk f)) (c :: strays (disk f))
  | None => disk f
  end.

Definition _save (w : io) (st : fs) (data : data_t) : fs * result unit :=
  (* self._path.parent.mkdir(parents=True, exist_ok=True) *)
  if fails w Mkdir then (st, Raise OSError)
  else
    match try_body w st data with
    | (f, Ok tt) => (leave f, Ok tt)
    | (f, Raise e) =>
        if issubclass e OSError then
          (* if temp_path.exists(): temp_path.unlink() *)
          match temp_path f with
          | None => (leave f, Raise UnboundLocalError)
          | Some _ => (disk f, Raise ATHStoreError)
          end
        else (leave f, Raise e)
    end.

Definition update (w : io) (record : ATHRecord.t) (st : fs) : fs * result unit :=
  match _load w st with
  | Raise e => (st, Raise e)
  | Ok data =>
      let data :=
        Dict.set String.eqb data (IndexSymbol.value (ATHRecord.symbol record))
          (JObj [("ath_value", JStr (DecText.str (ATHRecord.ath_value record)));
                 ("ath_date", JStr (Cal.date_isoformat (ATHRecord.ath_date record)));
                 ("updated_at",
                  JStr (Cal.datetime_isoformat (ATHRecord.updated_at record)))]) in
      _save w st data
  end.


End ATHStore.

(** ** The design document's formulas *)

Module Spec.

#[local] Open Scope Q_scope.

(** Floor-toward-zero of a quotient. *)
Definition truncate (x : Q) : Z := Z.quot (Qnum x) (Zpos (Qden x)).



(** [((current - ath) / ath) * 100] *)
Definition exact_gap (current ath : Q) : Q :=
  ((current - ath) / ath) * inject_Z 100.

(** [floor(|gap_percent| / increment) * increment], the quotient
    truncated. *)
Definition drop_tier (gap_percent : Q) (increment : Z) : Z :=
  (truncate (Qabs gap_percent / inject_Z increment) * increment)%Z.


End Spec.

(** ** Auxiliary definitions of the proofs *)

Module TextAux.
Import Text.
#[local] Open Scope N_scope.

Definition all_digits (ds : list N) : Prop := Forall (fun d => d < 10) ds.

(** A string at which a run of digits ends. *)
Definition stops (s : list ascii) : Prop :=
  match s with
  | [] => True
  | c :: _ => digit_val c = None
  end.
End TextAux.

Module DecTextAux.
Import Dec Text.
(** The shape of every output of [Decimal.__str__]: a sign, the digits
    before the point, the point and the digits after it if any, the
    exponent if any. *)
Definition render (sg : bool) (ip : list N) (fp : option (list N))
    (ex : option Z) : list ascii :=
  (if sg then ["-"%char] else [])
    ++ map digit_char ip
    ++ match fp with Some fp => "."%char :: map digit_char fp | None => [] end
    ++ match ex with Some k => "E"%char :: signed_chars k | None => [] end.
End DecTextAux.

Module StoreAux.
Import Json ATHStore.
#[local] Open Scope string_scope.

(** The object [update] stores for a record. *)
Definition stored_entry (record : ATHRecord.t) : json :=
  JObj [("ath_value", JStr (DecText.str (ATHRecord.ath_value record)));
        ("ath_date", JStr (Cal.date_isoformat (ATHRecord.ath_date record)));
        ("updated_at", JStr (Cal.datetime_isoformat (ATHRecord.updated_at record)))].

(** A record as the constructors of [date] and [datetime] allow it. *)
Definition well_formed (record : ATHRecord.t) : bool :=
  Cal.valid_date (ATHRecord.ath_date record)
  && Cal.valid_datetime (ATHRecord.updated_at record).

(** What one pass of the loop of [get_all] does with an item: nothing, a
    record to store, or an exception that leaves the loop. *)
Definition item_outcome (item : string * json)
  : result (option (IndexSymbol.t * ATHRecord.t)) :=
  match find (fun idx => String.eqb (IndexSymbol.value idx) (fst item))
             IndexSymbol.members with
  | None => Ok None
  | Some idx =>
      match parse_record idx (snd item) with
      | Ok r => Ok (Some (idx, r))
      | Raise e => if caught_by e [KeyError; ValueError] then Ok None else Raise e
      end
  end.
End StoreAux.

(** ** Values used in the examples *)

Module Examples.
Import Dec Cal Json ATHStore StoreAux.
#[local] Open Scope string_scope.

(** A price or a percentage written with two decimal places. *)
Definition hundredths (c : Z) : Decimal := mkDecimal (c <? 0)%Z (Z.abs_N c) (-2).
Definition jan10 : date := mkDate 2025 1 10.
Definition jan15 : date := mkDate 2025 1 15.
Definition at18 (d : date) : datetime := mkDatetime d 18 0 0 0 (Some 0).
Definition analyzer5 : DropAnalyzer.t := DropAnalyzer.mk (of_int 5).
Definition observed (p : Decimal) : IndexData.t :=
  IndexData.mk IndexSymbol.SP500 p (at18 jan15) jan15.
Definition recorded (p : Decimal) : ATHRecord.t :=
  ATHRecord.mk IndexSymbol.SP500 p jan10 (at18 jan10).

Definition empty_dir : fs := mkFs None [].

Definition nasdaq : ATHRecord.t :=
  ATHRecord.mk IndexSymbol.NASDAQ100 (hundredths 1850000) jan10 (at18 jan10).

(** [{"^GSPC": {"ath_value": "abc", ...}, "^NDX": {...}}] *)
Definition malformed_value : fs :=
  mkFs (Some (Text (JObj
    [("^GSPC", JObj [("ath_value", JStr "abc");
                     ("ath_date", JStr "2025-01-10");
                     ("updated_at", JStr "2025-01-10T18:00:00+00:00")]);
     ("^NDX", stored_entry nasdaq)]))) [].

(** [{"^GSPC": 5, "^NDX": {...}}] *)
Definition malformed_item : fs :=
  mkFs (Some (Text (JObj [("^GSPC", JInt 5); ("^NDX", stored_entry nasdaq)]))) [].

(** [{"^GSPC": {"missing": "fields"}, "^NDX": {...}}] *)
Definition missing_fields : fs :=
  mkFs (Some (Text (JObj
    [("^GSPC", JObj [("missing", JStr "fields")]);
     ("^NDX", stored_entry nasdaq)]))) [].
End Examples.

(** * Properties *)

(** ** Decimal arithmetic *)

Section DecimalFacts.

Import Dec.
#[local] Open Scope Q_scope.

Lemma signed_mk (c e : Z) :
  signed (mkDecimal (c <? 0)%Z (Z.abs_N c) e) = c.
Proof.
  unfold signed; cbn [_sign _int].
  destruct (Z.ltb_spec c 0); rewrite N2Z.inj_abs_N; lia.
Qed.

Lemma to_Q_of_int (n : Z) : to_Q (of_int n) = inject_Z n.
Proof. unfold to_Q, of_int; cbn [_exp]. now rewrite signed_mk. Qed.

Lemma to_int_of_int (n : Z) : to_int (of_int n) = n.
Proof. unfold to_int, of_int; cbn [_exp]. now rewrite signed_mk. Qed.

Lemma to_Q_zero : to_Q zero = 0.
Proof. reflexivity. Qed.

Lemma to_Q_hundredths (c : Z) :
  to_Q (mkDecimal (c <? 0)%Z (Z.abs_N c) (-2)) == inject_Z c / inject_Z 100.
Proof.
  unfold to_Q; cbn [_exp]. rewrite signed_mk.
  change (Pos.pow 10 2) with 100%positive.
  unfold Qeq, Qdiv, Qmult, Qinv, inject_Z; cbn. lia.
Qed.

Lemma to_Q_abs (d : Decimal) : to_Q (abs d) == Qabs (to_Q d).
Proof.
  unfold to_Q, abs, signed; cbn [_sign _int _exp].
  destruct d as [s c e]; cbn [_sign _int _exp].
  destruct e as [|p|p], s; unfold Qabs, inject_Z, Qeq; cbn [Qnum Qden];
    rewrite ?Z.abs_opp, ?Z.abs_mul, ?Z.abs_opp; try lia;
    rewrite ?(Z.abs_eq (Z.of_N c)), ?(Z.abs_eq (Z.pow_pos 10 p)); try lia.
  all: rewrite Z.pow_pos_fold; apply Z.pow_nonneg; lia.
Qed.

Lemma eqb_true (a b : Decimal) : eqb a b = true <-> to_Q a == to_Q b.
Proof.
  unfold eqb, compare. rewrite Qeq_alt.
  destruct (to_Q a ?= to_Q b); intuition discriminate.
Qed.

Lemma ltb_true (a b : Decimal) : ltb a b = true <-> to_Q a < to_Q b.
Proof.
  unfold ltb, compare. rewrite Qlt_alt.
  destruct (to_Q a ?= to_Q b); intuition discriminate.
Qed.

Lemma leb_true (a b : Decimal) : leb a b = true <-> to_Q a <= to_Q b.
Proof.
  unfold leb, compare. rewrite Qle_alt.
  destruct (to_Q a ?= to_Q b); intuition (discriminate || congruence).
Qed.

Lemma leb_false (a b : Decimal) : leb a b = false <-> to_Q b < to_Q a.
Proof.
  unfold leb, compare. rewrite Qgt_alt.
  destruct (to_Q a ?= to_Q b); intuition discriminate.
Qed.

Lemma ltb_false (a b : Decimal) : ltb a b = false <-> to_Q b <= to_Q a.
Proof.
  unfold ltb, compare. rewrite Qge_alt.
  destruct (to_Q a ?= to_Q b); intuition (discriminate || congruence).
Qed.

End DecimalFacts.

Section RoundingFacts.

Import Dec.
#[local] Open Scope Q_scope.

Lemma round_half_even_cases (x : Q) :
  let f := Qfloor x in
  (x - inject_Z f < 1 # 2 /\ round_half_even x = f) \/
  (1 # 2 < x - inject_Z f /\ round_half_even x = (f + 1)%Z) \/
  (x - inject_Z f == 1 # 2 /\
   round_half_even x = if Z.even f then f else (f + 1)%Z).
Proof.
  intros f. unfold round_half_even. fold f.
  destruct (Qcompare_spec (x - inject_Z f) (1 # 2)); auto.
Qed.

Lemma floor_bounds (x : Q) :
  inject_Z (Qfloor x) <= x /\ x < inject_Z (Qfloor x) + 1.
Proof.
  split; [apply Qfloor_le|].
  generalize (Qlt_floor x). rewrite inject_Z_plus. auto.
Qed.




Lemma round_half_even_nonpos (x : Q) :
  x <= 0 -> (round_half_even x <= 0)%Z.
Proof.
  intros Hx. destruct (floor_bounds x) as [Hl Hu].
  assert (F : (Qfloor x <= 0)%Z).
  { rewrite Zle_Qle. change (inject_Z 0) with 0. lra. }
  destruct (Z.eq_dec (Qfloor x) 0) as [E|NE].
  - rewrite E in *. change (inject_Z 0) with 0 in *.
    destruct (round_half_even_cases x) as [[H ->]|[[H ->]|[H ->]]];
      rewrite E in *; change (inject_Z 0) with 0 in *; try lra; try lia.
  - destruct (round_half_even_cases x) as [[H ->]|[[H ->]|[H ->]]];
      try destruct (Z.even _); lia.
Qed.

Lemma round_down_nonneg (x : Q) : 0 <= x -> round_down x = Qfloor x.
Proof.
  intros H. unfold round_down.
  apply Qle_bool_iff in H. now rewrite H.
Qed.


Lemma round_comp (r : rounding) (x y : Q) : x == y -> round r x = round r y.
Proof.
  intros E. destruct r; cbn [round].
  - unfold round_half_even; cbv zeta.
    rewrite (Qfloor_comp _ _ E).
    assert (C : x - inject_Z (Qfloor y) == y - inject_Z (Qfloor y)).
    { apply Qplus_comp; [exact E | reflexivity]. }
    now rewrite (Qcompare_comp _ _ C _ _ (Qeq_refl (1 # 2))).
  - unfold round_down.
    now rewrite (Qfloor_comp _ _ E), (Qceiling_comp _ _ E),
                (Qleb_comp _ _ (Qeq_refl 0) _ _ E).
Qed.

Lemma to_int_quantize_0 (r : rounding) (x : Q) :
  to_int (quantize r x 0) = round r x.
Proof.
  unfold to_int, quantize; cbn [_exp].
  rewrite signed_mk. apply round_comp.
  change (pow10 (- 0)) with 1. ring.
Qed.

End RoundingFacts.

(** ** The drop analyzer *)

Section AnalyzerFacts.

Import Dec DropAnalyzer.
#[local] Open Scope Q_scope.

Lemma init_int (inc : Z) :
  __init__ (PyInt inc) =
  if ((inc <=? 0) || (inc >? 100))%Z then Raise ValueError
  else Ok (mk (of_int inc)).
Proof.
  unfold __init__; cbn [number_value of_number].
  assert (A : Qle_bool (inject_Z inc) 0 = (inc <=? 0)%Z).
  { unfold Qle_bool, inject_Z; cbn. now rewrite Z.mul_1_r. }
  assert (B : negb (Qle_bool (inject_Z inc) (inject_Z 100)) = (inc >? 100)%Z).
  { unfold Qle_bool, inject_Z; cbn. rewrite Z.mul_1_r, Z.gtb_ltb, Z.ltb_antisym.
    reflexivity. }
  now rewrite A, B.
Qed.


Lemma init_inv (inc : Z) (self : t) :
  __init__ (PyInt inc) = Ok self ->
  (1 <= inc <= 100)%Z /\ self = mk (of_int inc).
Proof.
  rewrite init_int.
  destruct (Z.leb_spec inc 0); [discriminate|].
  destruct (Z.gtb_spec inc 100); [discriminate|].
  intros [= <-]. split; [lia | reflexivity].
Qed.

Lemma increment_pos (inc : Z) : (1 <= inc)%Z -> 0 < inject_Z inc.
Proof.
  intros H. change 0 with (inject_Z 0). rewrite <- Zlt_Qlt. lia.
Qed.

Lemma div_increment_nonneg (x : Q) (inc : Z) :
  (1 <= inc)%Z -> 0 <= x -> 0 <= x / inject_Z inc.
Proof.
  intros Hinc Hx.
  apply Qle_shift_div_l; [now apply increment_pos|]. now rewrite Qmult_0_l.
Qed.

Lemma geb_zero (g : Decimal) : geb g zero = true <-> 0 <= to_Q g.
Proof. unfold geb. rewrite leb_true, to_Q_zero. reflexivity. Qed.

(** The tier below zero, in the words of the code. *)
Lemma determine_drop_tier_neg (inc : Z) (g : Decimal) :
  (1 <= inc)%Z -> to_Q g < 0 ->
  determine_drop_tier (mk (of_int inc)) g =
  (Qfloor (Qabs (to_Q g) / inject_Z inc) * inc)%Z.
Proof.
  intros Hinc Hg. unfold determine_drop_tier; cbn [_increment].
  destruct (geb g zero) eqn:G.
  - apply geb_zero in G. lra.
  - rewrite to_int_quantize_0, to_int_of_int, to_Q_of_int.
    assert (E : to_Q (abs g) / inject_Z inc == Qabs (to_Q g) / inject_Z inc).
    { now rewrite to_Q_abs. }
    rewrite (round_comp ROUND_DOWN _ _ E). cbn [round].
    rewrite round_down_nonneg; [reflexivity|].
    apply div_increment_nonneg; [exact Hinc | apply Qabs_nonneg].
Qed.

Lemma determine_drop_tier_nonneg (self : t) (g : Decimal) :
  0 <= to_Q g -> determine_drop_tier self g = 0%Z.
Proof.
  intros Hg. unfold determine_drop_tier.
  apply geb_zero in Hg. now rewrite Hg.
Qed.



End AnalyzerFacts.

(** ** Properties of the drop analyzer *)

Section AnalyzerClaims.

Import Dec DropAnalyzer Examples.
#[local] Open Scope Q_scope.

Lemma floor_tier_le (x : Q) (inc : Z) :
  (1 <= inc)%Z -> 0 <= x ->
  inject_Z (Qfloor (x / inject_Z inc) * inc) <= x.
Proof.
  intros Hinc Hx. pose proof (increment_pos inc Hinc) as P.
  rewrite inject_Z_mult.
  apply Qle_trans with (x / inject_Z inc * inject_Z inc).
  - apply Qmult_le_compat_r; [apply Qfloor_le | lra].
  - unfold Qdiv. rewrite <- Qmult_assoc, (Qmult_comm (/ _)), Qmult_inv_r; lra.
Qed.







Lemma eqb_not_gtb (a b : Decimal) : eqb a b = true -> gtb a b = false.
Proof.
  rewrite eqb_true. unfold gtb. rewrite ltb_false. intros E. lra.
Qed.

(** C3.  With no prior record, or with a prior record whose [ath_value]
    is strictly below the current price, [analyze] returns a result with
    [gap_percent = 0], [drop_tier = 0], [HOLD] and [is_new_ath = true],
    together with a new record whose [ath_value] is the current price and
    whose [ath_date] is the market date of the observation; when the
    current price equals the prior [ath_value] the result has
    [is_new_ath = false] and no record is returned. *)
Theorem analyze_new_ath (self : t) (index_data : IndexData.t) (now : Cal.datetime) :
  let current := IndexData.current_price index_data in
  let fresh :=
    (AnalysisResult.mk (IndexData.symbol index_data) current current
       (IndexData.market_date index_data) zero 0 HOLD true,
     Some (ATHRecord.mk (IndexData.symbol index_data) current
             (IndexData.market_date index_data) now)) in
  analyze self index_data None now = fresh /\
  (forall prior : ATHRecord.t,
      ltb (ATHRecord.ath_value prior) current = true ->
      analyze self index_data (Some prior) now = fresh) /\
  (forall prior : ATHRecord.t,
      eqb current (ATHRecord.ath_value prior) = true ->
      AnalysisResult.is_new_ath (fst (analyze self index_data (Some prior) now)) = false /\
      snd (analyze self index_data (Some prior) now) = None).
Proof.
  intros current fresh. split; [reflexivity|]. split.
  - intros prior H. unfold analyze. fold current.
    unfold gtb. now rewrite H.
  - intros prior H. unfold analyze. fold current.
    rewrite (eqb_not_gtb _ _ H). split; reflexivity.
Qed.

Lemma analyze_new_ath_witness :
  AnalysisResult.is_new_ath
    (fst (analyze analyzer5 (observed (hundredths 610000))
            (Some (recorded (hundredths 600000))) (at18 jan15))) = true /\
  AnalysisResult.is_new_ath
    (fst (analyze analyzer5 (observed (hundredths 600000))
            (Some (recorded (hundredths 600000))) (at18 jan15))) = false.
Proof.
  split.
  - rewrite (proj1 (proj2 (analyze_new_ath analyzer5 (observed (hundredths 610000))
                             (at18 jan15))) (recorded (hundredths 600000)));
      reflexivity.
  - apply (proj2 (proj2 (analyze_new_ath analyzer5 (observed (hundredths 600000))
                           (at18 jan15))) (recorded (hundredths 600000))).
    reflexivity.
Defined.

(** The gap, as a number of hundredths. *)
Lemma calculate_gap_percent_nonzero (self : t) (current ath : Decimal) :
  ~ to_Q ath == 0 ->
  calculate_gap_percent self current ath =
  hundredths (round_half_even (Spec.exact_gap (to_Q current) (to_Q ath) * inject_Z 100)).
Proof.
  intros H. unfold calculate_gap_percent.
  destruct (eqb ath zero) eqn:E.
  - apply eqb_true in E. rewrite to_Q_zero in E. contradiction.
  - reflexivity.
Qed.

Lemma calculate_gap_percent_zero (self : t) (current ath : Decimal) :
  to_Q ath == 0 -> calculate_gap_percent self current ath = zero.
Proof.
  intros H. unfold calculate_gap_percent.
  destruct (eqb ath zero) eqn:E; [reflexivity|].
  assert (E' : eqb ath zero = true) by now apply eqb_true.
  congruence.
Qed.


Lemma to_Q_hundredths_sign (c : Z) :
  to_Q (hundredths c) == inject_Z c * (1 # 100).
Proof.
  unfold hundredths. rewrite to_Q_hundredths.
  change (inject_Z 100) with 100. field.
Qed.

Lemma exact_gap_nonpos (c a : Q) :
  0 < a -> c <= a -> Spec.exact_gap c a <= 0.
Proof.
  intros Ha Hc. unfold Spec.exact_gap.
  assert (X : (c - a) / a <= 0).
  { apply Qle_shift_div_r; [exact Ha | lra]. }
  change (inject_Z 100) with 100. lra.
Qed.


Lemma gap_nonpos (self : t) (current ath : Decimal) :
  0 <= to_Q ath -> to_Q current <= to_Q ath ->
  to_Q (calculate_gap_percent self current ath) <= 0.
Proof.
  intros Ha Hc. destruct (Qeq_dec (to_Q ath) 0) as [Z|NZ].
  - rewrite calculate_gap_percent_zero by exact Z. rewrite to_Q_zero. lra.
  - rewrite calculate_gap_percent_nonzero by exact NZ.
    rewrite to_Q_hundredths_sign.
    assert (P : 0 < to_Q ath).
    { destruct (Qlt_le_dec 0 (to_Q ath)); [assumption|]. exfalso. apply NZ. lra. }
    pose proof (exact_gap_nonpos _ _ P Hc) as G.
    assert (R : (round_half_even
                   (Spec.exact_gap (to_Q current) (to_Q ath) * inject_Z 100) <= 0)%Z).
    { apply round_half_even_nonpos. change (inject_Z 100) with 100. lra. }
    rewrite Zle_Qle in R. change (inject_Z 0) with 0 in R. lra.
Qed.






End AnalyzerClaims.

(** ** Digits in text *)

Section TextFacts.

Import Text TextAux.
#[local] Open Scope N_scope.

Lemma digit_val_digit_char (d : N) :
  d < 10 -> digit_val (digit_char d) = Some d.
Proof.
  intros H.
  assert (C : d = 0 \/ d = 1 \/ d = 2 \/ d = 3 \/ d = 4 \/ d = 5 \/ d = 6 \/
              d = 7 \/ d = 8 \/ d = 9) by lia.
  repeat (destruct C as [-> | C]; [reflexivity|]). subst d. reflexivity.
Qed.

Lemma digit_char_not (d : N) (c : ascii) :
  d < 10 -> digit_val c = None -> Ascii.eqb (digit_char d) c = false.
Proof.
  intros H Hc. destruct (Ascii.eqb_spec (digit_char d) c) as [E|]; [|reflexivity].
  rewrite <- E, digit_val_digit_char in Hc by exact H. discriminate.
Qed.

Lemma value_snoc (ds : list N) (d : N) : value (ds ++ [d]) = 10 * value ds + d.
Proof. unfold value. now rewrite fold_left_app. Qed.

Lemma value_from_zeros (k : nat) (ds : list N) :
  value (repeat 0 k ++ ds) = value ds.
Proof.
  unfold value. rewrite fold_left_app.
  replace (fold_left (fun a d => 10 * a + d) (repeat 0 k) 0) with 0; [reflexivity|].
  induction k as [|k IH]; [reflexivity|]. cbn. exact IH.
Qed.

Lemma digits_fuel_acc (f : nat) (n : N) (acc : list N) :
  digits_fuel f n acc = digits_fuel f n [] ++ acc.
Proof.
  revert n acc. induction f as [|f IH]; intros n acc; cbn; [reflexivity|].
  destruct (n <? 10); [reflexivity|].
  rewrite (IH _ (_ :: acc)), (IH _ [_]), <- app_assoc. reflexivity.
Qed.

Lemma digits_fuel_value (f : nat) (n : N) : value (digits_fuel f n []) = n.
Proof.
  revert n. induction f as [|f IH]; intros n; cbn [digits_fuel].
  - unfold value; cbn. lia.
  - destruct (n <? 10); [unfold value; cbn; lia|].
    rewrite digits_fuel_acc, value_snoc, IH.
    symmetry. apply (N.div_mod n 10). lia.
Qed.

Lemma digits_fuel_all (f : nat) (n : N) :
  n < 10 * 2 ^ N.of_nat f -> all_digits (digits_fuel f n []).
Proof.
  revert n. induction f as [|f IH]; intros n H.
  - cbn in *. constructor; [lia | constructor].
  - cbn [digits_fuel]. destruct (N.ltb_spec n 10) as [L|G].
    + constructor; [exact L | constructor].
    + rewrite digits_fuel_acc. apply Forall_app. split.
      * apply IH. rewrite Nat2N.inj_succ, N.pow_succ_r' in H.
        apply N.Div0.div_lt_upper_bound. lia.
      * constructor; [|constructor]. apply N.mod_lt. lia.
Qed.

Lemma digits_fuel_nonempty (f : nat) (n : N) (acc : list N) :
  digits_fuel f n acc <> [].
Proof.
  revert n acc. induction f as [|f IH]; intros n acc; cbn; [discriminate|].
  destruct (n <? 10); [discriminate | apply IH].
Qed.

Lemma value_digits (n : N) : value (digits n) = n.
Proof. apply digits_fuel_value. Qed.

Lemma digits_all (n : N) : all_digits (digits n).
Proof.
  apply digits_fuel_all. rewrite N2Nat.id.
  pose proof (N.size_gt n). lia.
Qed.

Lemma digits_nonempty (n : N) : digits n <> [].
Proof. apply digits_fuel_nonempty. Qed.

Lemma fixed_length (w : nat) (n : N) : List.length (fixed w n) = w.
Proof.
  revert n. induction w as [|w IH]; intros n; cbn; [reflexivity|].
  rewrite length_app, IH. cbn. lia.
Qed.

Lemma fixed_all (w : nat) (n : N) : all_digits (fixed w n).
Proof.
  revert n. induction w as [|w IH]; intros n; cbn; [constructor|].
  apply Forall_app. split; [apply IH|].
  constructor; [apply N.mod_lt; lia | constructor].
Qed.

Lemma fixed_value (w : nat) (n : N) :
  n < 10 ^ N.of_nat w -> value (fixed w n) = n.
Proof.
  revert n. induction w as [|w IH]; intros n H.
  - cbn in *. unfold value; cbn. lia.
  - cbn [fixed]. rewrite value_snoc, IH.
    + symmetry. apply (N.div_mod n 10). lia.
    + rewrite Nat2N.inj_succ, N.pow_succ_r' in H.
      apply N.Div0.div_lt_upper_bound. lia.
Qed.

Lemma span_digits_app (ds : list N) (rest : list ascii) :
  all_digits ds -> stops rest ->
  span_digits (map digit_char ds ++ rest) = (ds, rest).
Proof.
  intros Hd Hr. induction Hd as [|d ds Hd _ IH]; cbn [map app span_digits].
  - destruct rest as [|c r]; [reflexivity|]. cbn [stops] in Hr.
    cbn [span_digits]. now rewrite Hr.
  - rewrite digit_val_digit_char by exact Hd. now rewrite IH.
Qed.

Lemma take_digits_app (ds : list N) (rest : list ascii) :
  all_digits ds ->
  take_digits (List.length ds) (map digit_char ds ++ rest) = Some (ds, rest).
Proof.
  intros Hd. induction Hd as [|d ds Hd _ IH];
    cbn [map app take_digits List.length]; [reflexivity|].
  rewrite digit_val_digit_char by exact Hd. now rewrite IH.
Qed.

Lemma take_number_pad (w : nat) (n : N) (rest : list ascii) :
  n < 10 ^ N.of_nat w -> take_number w (pad w n ++ rest) = Some (n, rest).
Proof.
  intros H. unfold take_number, pad.
  rewrite <- (fixed_length w n) at 1.
  rewrite take_digits_app by apply fixed_all.
  now rewrite fixed_value.
Qed.

End TextFacts.

(** ** Decimals in text *)

Section DecTextFacts.

Import Dec Text TextAux DecText DecTextAux.

Lemma take_sign_digit (d : N) (s : list ascii) :
  (d < 10)%N -> take_sign (digit_char d :: s) = (false, digit_char d :: s).
Proof.
  intros H. unfold take_sign.
  now rewrite !(digit_char_not d) by (exact H || reflexivity).
Qed.

Lemma take_sign_signed_chars (k : Z) :
  take_sign (signed_chars k) = ((k <? 0), map digit_char (digits (Z.abs_N k))).
Proof. unfold signed_chars, take_sign. now destruct (k <? 0). Qed.

Lemma parse_rendered (sg : bool) (ip : list N) (fp : option (list N))
    (ex : option Z) :
  ip <> [] -> all_digits ip ->
  match fp with Some fp => all_digits fp | None => True end ->
  of_chars (render sg ip fp ex) =
  let fd := match fp with Some fp => fp | None => [] end in
  Some (mkDecimal sg (value (ip ++ fd))
          (match ex with Some k => k | None => 0 end
           - Z.of_nat (List.length fd))).
Proof.
  intros Hne Hip Hfp. unfold of_chars, render.
  (* the sign *)
  assert (S1 : forall rest,
             take_sign ((if sg then ["-"%char] else []) ++ map digit_char ip ++ rest)
             = (sg, map digit_char ip ++ rest)).
  { intros rest. destruct sg; [reflexivity|]. cbn [app].
    destruct ip as [|d ip']; [contradiction|]. cbn [map app].
    apply take_sign_digit. now inversion Hip. }
  rewrite S1.
  (* the exponent *)
  set (etxt := match ex with Some k => "E"%char :: signed_chars k | None => [] end).
  assert (Se : stops etxt) by (subst etxt; destruct ex; reflexivity).
  assert (E : forall coeff e0,
             match etxt with
             | [] => Some (mkDecimal sg (value coeff) e0)
             | c :: r =>
                 if Ascii.eqb c "E" || Ascii.eqb c "e" then
                   let '(esg, r1) := take_sign r in
                   match span_digits r1 with
                   | (d :: ed, []) =>
                       let e := Z.of_N (value (d :: ed)) in
                       Some (mkDecimal sg (value coeff) ((if esg then - e else e) + e0))
                   | _ => None
                   end
                 else None
             end
             = Some (mkDecimal sg (value coeff)
                       (match ex with Some k => k | None => 0 end + e0))).
  { intros coeff e0. subst etxt. destruct ex as [k|]; [|reflexivity].
    cbv beta iota. change (Ascii.eqb "E" "E" || Ascii.eqb "E" "e") with true.
    cbv beta iota.
    rewrite take_sign_signed_chars.
    rewrite <- (app_nil_r (map digit_char _)).
    rewrite span_digits_app by (apply digits_all || exact I).
    destruct (digits (Z.abs_N k)) as [|d ed] eqn:D;
      [now apply digits_nonempty in D|].
    cbv zeta. rewrite <- D, value_digits, N2Z.inj_abs_N.
    do 3 f_equal. destruct (Z.ltb_spec k 0); lia. }
  destruct fp as [fp|].
  - (* with a fractional part *)
    cbv beta iota. cbn [app].
    rewrite span_digits_app by (exact Hip || reflexivity).
    change (Ascii.eqb "." ".") with true. cbv iota.
    rewrite span_digits_app by (exact Hfp || exact Se).
    destruct (ip ++ fp) as [|c0 cs] eqn:C.
    { apply app_eq_nil in C as [-> _]. contradiction. }
    rewrite <- C. rewrite E. reflexivity.
  - (* without *)
    cbv beta iota. cbn [app].
    rewrite span_digits_app by (exact Hip || exact Se).
    assert (F : match etxt with
                | [] => ([], etxt)
                | c :: r => if Ascii.eqb c "." then span_digits r else ([], etxt)
                end = (@nil N, etxt)).
    { subst etxt. destruct ex; reflexivity. }
    rewrite F. rewrite app_nil_r.
    destruct ip as [|c0 cs] eqn:C; [contradiction|].
    rewrite <- C. rewrite E. reflexivity.
Qed.

End DecTextFacts.

Section DecTextRoundTrip.

Import Dec Text TextAux DecText DecTextAux.

Lemma all_digits_firstn (k : nat) (ds : list N) :
  all_digits ds -> all_digits (firstn k ds).
Proof.
  intros H. rewrite <- (firstn_skipn k ds) in H.
  now apply Forall_app in H.
Qed.

Lemma all_digits_skipn (k : nat) (ds : list N) :
  all_digits ds -> all_digits (skipn k ds).
Proof.
  intros H. rewrite <- (firstn_skipn k ds) in H.
  now apply Forall_app in H.
Qed.

Lemma all_digits_zeros (k : nat) : all_digits (repeat 0%N k).
Proof. apply Forall_forall. intros x Hx. apply repeat_spec in Hx. subst. reflexivity. Qed.

Lemma of_chars_str_chars (d : Decimal) : of_chars (str_chars d) = Some d.
Proof.
  destruct d as [sg c e]. unfold str_chars; cbn [_sign _int _exp].
  pose proof (digits_all c) as Hall.
  pose proof (digits_nonempty c) as Hne.
  pose proof (value_digits c) as Hval.
  set (ds := digits c) in *.
  assert (Hn : 1 <= Z.of_nat (List.length ds)).
  { destruct ds; [contradiction | cbn [List.length]; lia]. }
  set (n := Z.of_nat (List.length ds)) in *.
  destruct ((e <=? 0) && (-6 <? e + n)) eqn:A.
  - apply andb_prop in A as [A1 A2]. apply Z.leb_le in A1.
    rewrite Z.eqb_refl.
    destruct (Z.leb_spec (e + n) 0) as [L|L].
    + change (of_chars (render sg [0%N]
                         (Some (repeat 0%N (Z.to_nat (- (e + n))) ++ ds)) None)
              = Some (mkDecimal sg c e)).
      rewrite parse_rendered;
        [| discriminate | repeat constructor
         | apply Forall_app; split; [apply all_digits_zeros | exact Hall]].
      cbv zeta. f_equal. f_equal.
      * change ([0%N] ++ repeat 0%N (Z.to_nat (- (e + n))) ++ ds)
          with (repeat 0%N (S (Z.to_nat (- (e + n)))) ++ ds).
        now rewrite value_from_zeros.
      * rewrite length_app, repeat_length. fold n. lia.
    + destruct (Z.leb_spec n (e + n)) as [M|M].
      * assert (e = 0) by lia. subst e.
        replace (Z.to_nat (0 + n - n)) with O by lia. cbn [repeat].
        rewrite (app_nil_r ds).
        change (of_chars (render sg ds None None) = Some (mkDecimal sg c 0)).
        rewrite parse_rendered by (exact Hne || exact Hall || exact I).
        cbv zeta. now rewrite app_nil_r, Hval.
      * change (of_chars (render sg (firstn (Z.to_nat (e + n)) ds)
                            (Some (skipn (Z.to_nat (e + n)) ds)) None)
                = Some (mkDecimal sg c e)).
        rewrite parse_rendered;
          [| | now apply all_digits_firstn | now apply all_digits_skipn].
        -- cbv zeta. rewrite firstn_skipn, Hval, length_skipn. fold n.
           f_equal. f_equal. lia.
        -- intros E. apply (f_equal (@List.length N)) in E.
           rewrite length_firstn in E. cbn in E. lia.
  - assert (B : (e + n =? 1) = false).
    { apply Z.eqb_neq. intros E1.
      apply andb_false_iff in A as [A|A];
        [apply Z.leb_gt in A | apply Z.ltb_ge in A]; lia. }
    rewrite B. change (1 <=? 0) with false. cbv iota.
    destruct (Z.leb_spec n 1) as [M|M].
    + replace (Z.to_nat (1 - n)) with O by lia. cbn [repeat].
      rewrite (app_nil_r ds).
      change (of_chars (render sg ds None (Some (e + n - 1)))
              = Some (mkDecimal sg c e)).
      rewrite parse_rendered by (exact Hne || exact Hall || exact I).
      cbv zeta. rewrite app_nil_r, Hval. cbn [List.length].
      f_equal. f_equal. lia.
    + change (of_chars (render sg (firstn (Z.to_nat 1) ds)
                          (Some (skipn (Z.to_nat 1) ds)) (Some (e + n - 1)))
              = Some (mkDecimal sg c e)).
      rewrite parse_rendered;
        [| | now apply all_digits_firstn | now apply all_digits_skipn].
      * cbv zeta. rewrite firstn_skipn, Hval, length_skipn. fold n.
        f_equal. f_equal. lia.
      * intros E. apply (f_equal (@List.length N)) in E.
        rewrite length_firstn in E. cbn in E. lia.
Qed.

(** [Decimal(str(d))] is [d], field by field. *)
Lemma of_str_str (d : Decimal) : of_str (str d) = Ok d.
Proof.
  unfold of_str, str.
  now rewrite list_ascii_of_string_of_list_ascii, of_chars_str_chars.
Qed.

End DecTextRoundTrip.

(** ** Dates in text *)

Section CalFacts.

Import Text TextAux Cal.
#[local] Open Scope N_scope.

Lemma expect_head (c : ascii) (r : list ascii) : expect c (c :: r) = Some r.
Proof. unfold expect. now rewrite Ascii.eqb_refl. Qed.

Lemma take_two (n : N) (rest : list ascii) :
  n < 100 -> take_number 2 (pad 2 n ++ rest) = Some (n, rest).
Proof. intros H. apply take_number_pad. exact H. Qed.

Lemma days_in_month_le (y m : N) : days_in_month y m <= 31.
Proof.
  unfold days_in_month.
  repeat match goal with |- context [if ?b then _ else _] => destruct b end; lia.
Qed.

Lemma valid_date_bounds (d : date) :
  valid_date d = true -> year d < 10000 /\ month d < 100 /\ day d < 100.
Proof.
  unfold valid_date. rewrite !andb_true_iff, !N.leb_le.
  pose proof (days_in_month_le (year d) (month d)). lia.
Qed.

Lemma take_date_chars (d : date) (rest : list ascii) :
  valid_date d = true -> take_date (date_chars d ++ rest) = Some (d, rest).
Proof.
  intros V. destruct (valid_date_bounds d V) as (Hy & Hm & Hd).
  unfold take_date, date_chars.
  rewrite <- app_assoc. rewrite take_number_pad by exact Hy.
  cbn [obind app]. rewrite expect_head. cbn [obind].
  rewrite <- app_assoc, take_two by exact Hm.
  cbn [obind app]. rewrite expect_head. cbn [obind].
  rewrite take_two by exact Hd. cbn [obind].
  destruct d as [y m dd]. cbn [year month day] in *. now rewrite V.
Qed.

Lemma date_roundtrip (d : date) :
  valid_date d = true -> date_fromisoformat (date_isoformat d) = Ok d.
Proof.
  intros V. unfold date_fromisoformat, date_isoformat, date_of_chars.
  rewrite list_ascii_of_string_of_list_ascii.
  rewrite <- (app_nil_r (date_chars d)).
  now rewrite take_date_chars.
Qed.

Lemma take_offset_chars (o : option Z) :
  valid_offset o = true -> take_offset (offset_chars o) = Some o.
Proof.
  destruct o as [m|]; [|reflexivity]. cbn [valid_offset offset_chars].
  rewrite andb_true_iff, !Z.ltb_lt. intros [Lo Hi].
  set (a := Z.abs_N m).
  assert (Ha : a < 1440) by (subst a; lia).
  assert (Hq : a / 60 < 24) by (apply N.Div0.div_lt_upper_bound; lia).
  assert (Hr : a mod 60 < 60) by (apply N.mod_lt; lia).
  assert (Hs : a / 60 * 60 + a mod 60 = a).
  { rewrite N.mul_comm. symmetry. apply N.div_mod. lia. }
  unfold take_offset.
  assert (S : (if Ascii.eqb (if (m <? 0)%Z then "-"%char else "+"%char) "-"
               then Some true
               else if Ascii.eqb (if (m <? 0)%Z then "-"%char else "+"%char) "+"
                    then Some false else None) = Some (m <? 0)%Z).
  { now destruct (m <? 0)%Z. }
  rewrite S. cbn [obind].
  rewrite take_two by lia. cbn [obind]. rewrite expect_head. cbn [obind].
  rewrite <- (app_nil_r (pad 2 (a mod 60))), take_two by lia. cbn [obind].
  apply N.ltb_lt in Hq, Hr. rewrite Hq, Hr. cbn [andb].
  rewrite Hs. subst a. rewrite N2Z.inj_abs_N.
  do 2 f_equal. destruct (Z.ltb_spec m 0); lia.
Qed.

Lemma take_fraction_chars (us : N) (o : option Z) :
  us < 1000000 ->
  take_fraction ((if us =? 0 then [] else "."%char :: pad 6 us) ++ offset_chars o)
  = Some (us, offset_chars o).
Proof.
  intros H. destruct (N.eqb_spec us 0) as [->|NZ].
  - cbn [app]. destruct o as [m|]; [|reflexivity].
    cbn [offset_chars]. unfold take_fraction. now destruct (m <? 0)%Z.
  - cbn [app]. unfold take_fraction.
    change (Ascii.eqb "." ".") with true. cbv iota.
    now apply take_number_pad.
Qed.

Lemma datetime_roundtrip (t : datetime) :
  valid_datetime t = true ->
  datetime_fromisoformat (datetime_isoformat t) = Ok t.
Proof.
  intros V. pose proof V as V'. unfold valid_datetime in V'.
  rewrite !andb_true_iff, !N.ltb_lt in V'.
  destruct V' as (((((Vd & Hh) & Hm) & Hs) & Hu) & Vo).
  unfold datetime_fromisoformat, datetime_isoformat, datetime_of_chars.
  rewrite list_ascii_of_string_of_list_ascii. unfold datetime_chars.
  rewrite take_date_chars by exact Vd. cbn [obind].
  rewrite take_two by lia. cbn [obind app]. rewrite expect_head. cbn [obind].
  rewrite take_two by lia. cbn [obind app]. rewrite expect_head. cbn [obind].
  rewrite take_two by lia. cbn [obind].
  rewrite take_fraction_chars by exact Hu. cbn [obind].
  rewrite take_offset_chars by exact Vo. cbn [obind].
  destruct t as [d h mi s us o]. cbn [on hour minute second microsecond tz] in *.
  now rewrite V.
Qed.

End CalFacts.

(** ** Dictionaries *)

Section DictFacts.

Context {K V : Type} (eqb : K -> K -> bool).
Hypothesis eqb_spec : forall a b : K, reflect (a = b) (eqb a b).

#[local] Abbreviation get := (@Dict.get K V eqb).
#[local] Abbreviation set := (@Dict.set K V eqb).
#[local] Abbreviation of_pairs := (@Dict.of_pairs K V eqb).
#[local] Abbreviation keys := (@Dict.keys K V).

Lemma get_set_same (d : Dict.t) (k : K) (v : V) : get (set d k v) k = Some v.
Proof.
  induction d as [|[k' v'] d IH]; cbn.
  - now destruct (eqb_spec k k).
  - destruct (eqb_spec k k') as [->|NE]; cbn.
    + now destruct (eqb_spec k' k').
    + now destruct (eqb_spec k k').
Qed.

Lemma get_set_other (d : Dict.t) (k k' : K) (v : V) :
  k' <> k -> get (set d k v) k' = get d k'.
Proof.
  intros NE. induction d as [|[k0 v0] d IH]; cbn.
  - now destruct (eqb_spec k' k).
  - destruct (eqb_spec k k0) as [->|NE0]; cbn.
    + now destruct (eqb_spec k' k0).
    + destruct (eqb_spec k' k0); [reflexivity | exact IH].
Qed.

Lemma set_fresh (d : Dict.t) (k : K) (v : V) :
  ~ In k (keys d) -> set d k v = d ++ [(k, v)].
Proof.
  induction d as [|[k' v'] d IH]; cbn; intros H; [reflexivity|].
  destruct (eqb_spec k k') as [->|NE]; [tauto|].
  rewrite IH; [reflexivity | tauto].
Qed.

Lemma keys_set_present (d : Dict.t) (k : K) (v : V) :
  In k (keys d) -> keys (set d k v) = keys d.
Proof.
  induction d as [|[k' v'] d IH]; cbn; intros H; [contradiction|].
  destruct (eqb_spec k k') as [->|NE]; cbn; [reflexivity|].
  f_equal. apply IH. destruct H; [congruence | assumption].
Qed.

Lemma NoDup_keys_set (d : Dict.t) (k : K) (v : V) :
  NoDup (keys d) -> NoDup (keys (set d k v)).
Proof.
  intros H.
  assert (D : In k (keys d) \/ ~ In k (keys d)).
  { induction (keys d) as [|a l IHl]; [right; tauto|].
    destruct (eqb_spec k a) as [->|NE]; [left; now left|].
    destruct IHl as [I|NI]; [now inversion H | left; now right |].
    right. intros [E|I]; [congruence | tauto]. }
  destruct D as [I|NI].
  - now rewrite keys_set_present.
  - rewrite set_fresh by exact NI. unfold Dict.keys. rewrite map_app. cbn.
    apply NoDup_app; [exact H | repeat constructor; tauto |].
    intros x Hx [<-|[]]. tauto.
Qed.

Lemma NoDup_keys_of_pairs (l : list (K * V)) : NoDup (keys (of_pairs l)).
Proof.
  unfold Dict.of_pairs.
  assert (G : forall acc : Dict.t,
             NoDup (keys acc) ->
             NoDup (keys (fold_left (fun d kv => set d (fst kv) (snd kv)) l acc))).
  { induction l as [|[k v] l IH]; intros acc H; cbn; [exact H|].
    apply IH. now apply NoDup_keys_set. }
  apply G. constructor.
Qed.

Lemma of_pairs_dict (d : Dict.t) : NoDup (keys d) -> of_pairs d = d.
Proof.
  unfold Dict.of_pairs. intros H.
  assert (G : forall l acc : Dict.t,
             NoDup (keys (acc ++ l)) ->
             fold_left (fun d kv => set d (fst kv) (snd kv)) l acc = acc ++ l).
  { induction l as [|[k v] l IH]; intros acc Hn; cbn.
    - now rewrite app_nil_r.
    - assert (F : ~ In k (keys acc)).
      { unfold Dict.keys in Hn. rewrite map_app in Hn. cbn in Hn.
        apply NoDup_remove_2 in Hn. intros I. apply Hn.
        apply in_or_app. now left. }
      rewrite set_fresh by exact F.
      rewrite IH; rewrite <- app_assoc; [reflexivity | exact Hn]. }
  apply (G d []). exact H.
Qed.

End DictFacts.

(** ** The ATH store *)

Section StoreFacts.

Import Json ATHStore StoreAux.
#[local] Open Scope string_scope.

#[local] Abbreviation sget := (@Dict.get IndexSymbol.t ATHRecord.t IndexSymbol.eqb).
#[local] Abbreviation sset := (@Dict.set IndexSymbol.t ATHRecord.t IndexSymbol.eqb).
#[local] Abbreviation dset := (@Dict.set string json String.eqb).
#[local] Abbreviation dkeys := (@Dict.keys string json).

Lemma symbol_eqb_spec (a b : IndexSymbol.t) : reflect (a = b) (IndexSymbol.eqb a b).
Proof. destruct a, b; constructor; (reflexivity || discriminate). Qed.

Lemma value_injective (a b : IndexSymbol.t) :
  IndexSymbol.value a = IndexSymbol.value b -> a = b.
Proof. destruct a, b; (reflexivity || discriminate). Qed.

Lemma find_member (idx : IndexSymbol.t) :
  find (fun i => String.eqb (IndexSymbol.value i) (IndexSymbol.value idx))
       IndexSymbol.members = Some idx.
Proof. now destruct idx. Qed.

Lemma find_member_inv (key : string) (idx : IndexSymbol.t) :
  find (fun i => String.eqb (IndexSymbol.value i) key) IndexSymbol.members
  = Some idx -> key = IndexSymbol.value idx.
Proof.
  intros H. apply find_some in H as [_ H].
  apply String.eqb_eq in H. now symmetry.
Qed.

Lemma get_all_loop_cons (item : string * json) (rest : list (string * json))
    (records : records_t) :
  get_all_loop (item :: rest) records =
  match item_outcome item with
  | Ok None => get_all_loop rest records
  | Ok (Some (idx, r)) => get_all_loop rest (sset records idx r)
  | Raise e => Raise e
  end.
Proof.
  destruct item as [k v]. unfold item_outcome. cbn [get_all_loop fst snd].
  destruct (find _ _) as [idx|]; [|reflexivity].
  destruct (parse_record idx v) as [r|e]; [reflexivity|].
  now destruct (caught_by e _).
Qed.

Lemma item_outcome_key (k : string) (v : json) (idx : IndexSymbol.t)
    (r : ATHRecord.t) :
  item_outcome (k, v) = Ok (Some (idx, r)) -> k = IndexSymbol.value idx.
Proof.
  unfold item_outcome. cbn [fst snd].
  destruct (find _ _) as [i|] eqn:F; [|discriminate].
  destruct (parse_record i v) as [r'|e].
  - intros [= <- _]. now apply find_member_inv.
  - destruct (caught_by e _); discriminate.
Qed.

(** A stored record is read back as it was. *)
Lemma parse_stored_entry (r : ATHRecord.t) :
  well_formed r = true ->
  parse_record (ATHRecord.symbol r) (stored_entry r) = Ok r.
Proof.
  unfold well_formed. rewrite andb_true_iff. intros [Vd Vt].
  assert (G1 : getitem (stored_entry r) "ath_value"
               = Ok (JStr (DecText.str (ATHRecord.ath_value r)))) by reflexivity.
  assert (G2 : getitem (stored_entry r) "ath_date"
               = Ok (JStr (Cal.date_isoformat (ATHRecord.ath_date r)))) by reflexivity.
  assert (G3 : getitem (stored_entry r) "updated_at"
               = Ok (JStr (Cal.datetime_isoformat (ATHRecord.updated_at r))))
    by reflexivity.
  unfold parse_record. rewrite G1, G2, G3. cbn [bind to_Decimal to_date to_datetime].
  rewrite of_str_str. cbn [bind].
  rewrite date_roundtrip by exact Vd. cbn [bind].
  rewrite datetime_roundtrip by exact Vt. cbn [bind].
  now destruct r.
Qed.

Lemma item_outcome_stored (r : ATHRecord.t) :
  well_formed r = true ->
  item_outcome (IndexSymbol.value (ATHRecord.symbol r), stored_entry r)
  = Ok (Some (ATHRecord.symbol r, r)).
Proof.
  intros W. unfold item_outcome. cbn [fst snd].
  now rewrite find_member, parse_stored_entry.
Qed.

(** Whether the loop raises does not depend on the records gathered so
    far. *)
Lemma get_all_loop_ok (items : list (string * json)) (a a' m : records_t) :
  get_all_loop items a = Ok m -> exists m', get_all_loop items a' = Ok m'.
Proof.
  revert a a' m. induction items as [|item rest IH]; intros a a' m H.
  - now exists a'.
  - rewrite get_all_loop_cons in *.
    destruct (item_outcome item) as [[[idx r]|]|e]; [| |discriminate];
      eapply IH; exact H.
Qed.

(** The loop returns exactly when no item raises past the [except]. *)
Lemma get_all_loop_ok_iff (items : list (string * json)) (a : records_t) :
  (exists m, get_all_loop items a = Ok m) <->
  Forall (fun item => exists o, item_outcome item = Ok o) items.
Proof.
  revert a. induction items as [|item rest IH]; intros a.
  - split; [constructor | intros _; now exists a].
  - rewrite get_all_loop_cons. split.
    + intros [m H]. destruct (item_outcome item) as [o|e] eqn:O; [|discriminate].
      constructor; [now exists o|].
      destruct o as [[idx r]|]; eapply IH; exists m; exact H.
    + intros F. inversion F as [|? ? [o O] F']; subst. rewrite O.
      destruct o as [[idx r]|]; now apply IH.
Qed.

(** Two runs of the loop that start with the same record for [i] end with
    the same record for [i]. *)
Lemma get_all_loop_agree (i : IndexSymbol.t) (items : list (string * json))
    (a a' m m' : records_t) :
  sget a i = sget a' i ->
  get_all_loop items a = Ok m -> get_all_loop items a' = Ok m' ->
  sget m i = sget m' i.
Proof.
  revert a a' m m'. induction items as [|item rest IH]; intros a a' m m' E H H'.
  - cbn in H, H'. congruence.
  - rewrite get_all_loop_cons in *.
    destruct (item_outcome item) as [[[idx r]|]|e]; [| |discriminate].
    + eapply IH; [|exact H|exact H'].
      destruct (symbol_eqb_spec i idx) as [->|NE].
      * now rewrite !(get_set_same _ symbol_eqb_spec).
      * now rewrite !(get_set_other _ symbol_eqb_spec) by exact NE.
    + eapply IH; eassumption.
Qed.

(** Items under other keys leave the record of [idx] alone. *)
Lemma get_all_loop_other_keys (idx : IndexSymbol.t)
    (items : list (string * json)) (a m : records_t) :
  ~ In (IndexSymbol.value idx) (dkeys items) ->
  get_all_loop items a = Ok m -> sget m idx = sget a idx.
Proof.
  revert a m. induction items as [|[k v] rest IH]; intros a m NI H.
  - cbn in H. congruence.
  - rewrite get_all_loop_cons in H. cbn in NI.
    destruct (item_outcome (k, v)) as [[[i r]|]|e] eqn:O; [| |discriminate].
    + apply item_outcome_key in O. subst k.
      rewrite (IH _ _ (fun I => NI (or_intror I)) H).
      apply (get_set_other _ symbol_eqb_spec).
      intros ->. tauto.
    + apply (IH _ _ (fun I => NI (or_intror I)) H).
Qed.

(** The effect of storing a well-formed record on what the loop reads. *)
Lemma get_all_loop_set (r : ATHRecord.t) (data : data_t) (a m : records_t) :
  well_formed r = true ->
  NoDup (dkeys data) ->
  get_all_loop data a = Ok m ->
  exists m',
    get_all_loop (dset data (IndexSymbol.value (ATHRecord.symbol r)) (stored_entry r)) a
    = Ok m' /\
    sget m' (ATHRecord.symbol r) = Some r /\
    (forall i, i <> ATHRecord.symbol r -> sget m' i = sget m i).
Proof.
  intros W. revert a m. induction data as [|[k v] rest IH]; intros a m ND H.
  - cbn in H. injection H as <-. cbn [Dict.set].
    rewrite get_all_loop_cons, item_outcome_stored by exact W. cbn [get_all_loop].
    eexists. split; [reflexivity|]. split.
    + apply (get_set_same _ symbol_eqb_spec).
    + intros i NE. now apply (get_set_other _ symbol_eqb_spec).
  - cbn [Dict.set]. cbn in ND. apply NoDup_cons_iff in ND as [NI ND].
    destruct (String.eqb_spec (IndexSymbol.value (ATHRecord.symbol r)) k)
      as [<-|NE].
    + rewrite get_all_loop_cons in H |- *.
      rewrite item_outcome_stored by exact W.
      assert (X : exists a1, get_all_loop rest a1 = Ok m /\
                             forall i, i <> ATHRecord.symbol r -> sget a1 i = sget a i).
      { destruct (item_outcome _) as [[[i r']|]|e] eqn:O; [| |discriminate].
        - exists (sset a i r'). split; [exact H|].
          apply item_outcome_key in O. apply value_injective in O. subst i.
          intros j NEj. now apply (get_set_other _ symbol_eqb_spec).
        - now exists a. }
      destruct X as (a1 & H1 & A1).
      destruct (get_all_loop_ok rest a1 (sset a (ATHRecord.symbol r) r) m H1)
        as [m' H'].
      exists m'. split; [exact H'|]. split.
      * rewrite (get_all_loop_other_keys _ _ _ _ NI H').
        apply (get_set_same _ symbol_eqb_spec).
      * intros i NEi.
        apply (get_all_loop_agree i rest _ _ _ _) with (2 := H') (3 := H1).
        rewrite (get_set_other _ symbol_eqb_spec) by exact NEi.
        symmetry. now apply A1.
    + rewrite get_all_loop_cons in H |- *.
      destruct (item_outcome (k, v)) as [[[i r']|]|e]; [| |discriminate];
        now apply IH.
Qed.

End StoreFacts.

(** ** Properties of the ATH store *)

Section StoreClaims.

Import Json ATHStore StoreAux Examples.

#[local] Abbreviation sget := (@Dict.get IndexSymbol.t ATHRecord.t IndexSymbol.eqb).
#[local] Abbreviation dset := (@Dict.set string json String.eqb).
#[local] Abbreviation dkeys := (@Dict.keys string json).

Lemma load_NoDup (w : io) (st : fs) (data : data_t) :
  _load w st = Ok data -> NoDup (dkeys data).
Proof.
  unfold _load. destruct (target st) as [c|]; [|intros [= <-]; constructor].
  destruct (read_fails w); [intros [= <-]; constructor|].
  destruct c as [j| |]; try (intros [= <-]; constructor); try discriminate.
  destruct j; intros [= <-]; try constructor.
  apply (NoDup_keys_of_pairs _ String.eqb_spec).
Qed.

Lemma save_no_fault (st : fs) (data : data_t) :
  _save no_fault st data = (mkFs (Some (Text (JObj data))) (strays st), Ok tt).
Proof. reflexivity. Qed.

Lemma load_saved (data : data_t) (s : list contents) :
  NoDup (dkeys data) ->
  _load no_fault (mkFs (Some (Text (JObj data))) s) = Ok data.
Proof.
  intros H. unfold _load; cbn. now rewrite (of_pairs_dict _ String.eqb_spec).
Qed.

(** One successful [update] of a store that can be read. *)
Lemma update_readable (st : fs) (m : records_t) (r : ATHRecord.t) :
  well_formed r = true ->
  get_all no_fault st = Ok m ->
  exists st' m',
    update no_fault r st = (st', Ok tt) /\
    strays st' = strays st /\
    get_all no_fault st' = Ok m' /\
    sget m' (ATHRecord.symbol r) = Some r /\
    (forall i, i <> ATHRecord.symbol r -> sget m' i = sget m i).
Proof.
  intros W H. unfold get_all in H.
  destruct (_load no_fault st) as [data|e] eqn:L; [|discriminate].
  cbn [bind] in H.
  pose proof (load_NoDup _ _ _ L) as ND.
  destruct (get_all_loop_set r data [] m W ND H) as (m' & H' & Hr & Ho).
  exists (mkFs (Some (Text (JObj (dset data (IndexSymbol.value (ATHRecord.symbol r))
                                   (stored_entry r))))) (strays st)), m'.
  split; [|split; [reflexivity|split; [|split; assumption]]].
  - unfold update. rewrite L. apply save_no_fault.
  - unfold get_all. rewrite load_saved; [exact H'|].
    now apply (NoDup_keys_set _ String.eqb_spec).
Qed.

(** C7.  For every record [r] with a valid date and a valid timestamp,
    on a store that [get_all] can read and with no failure of the file
    system, [update r] succeeds and [get (symbol r)] then returns a record
    equal to [r] in every field. *)
Theorem update_then_get (st : fs) (m : records_t) (r : ATHRecord.t) :
  Cal.valid_date (ATHRecord.ath_date r) = true ->
  Cal.valid_datetime (ATHRecord.updated_at r) = true ->
  get_all no_fault st = Ok m ->
  exists st',
    update no_fault r st = (st', Ok tt) /\
    get no_fault st' (ATHRecord.symbol r) = Ok (Some r).
Proof.
  intros Vd Vt H.
  assert (W : well_formed r = true) by (unfold well_formed; now rewrite Vd, Vt).
  destruct (update_readable st m r W H) as (st' & m' & U & _ & G & Hr & _).
  exists st'. split; [exact U|]. unfold get. now rewrite G; cbn [bind]; rewrite Hr.
Qed.

Lemma update_then_get_witness :
  exists st',
    update no_fault (recorded (hundredths 600000)) missing_fields = (st', Ok tt) /\
    get no_fault st' IndexSymbol.SP500 = Ok (Some (recorded (hundredths 600000))).
Proof.
  apply (update_then_get missing_fields [(IndexSymbol.NASDAQ100, nasdaq)]
           (recorded (hundredths 600000))); vm_compute; reflexivity.
Defined.

Lemma leb_refl (a : Decimal) : Dec.leb a a = true.
Proof. apply leb_true. apply Qle_refl. Qed.








(** What [get_all] answers when there is nothing to read. *)
Lemma get_all_missing_file (w : io) (st : fs) :
  target st = None -> get_all w st = Ok [].
Proof. unfold get_all, _load. now intros ->. Qed.

Lemma get_all_not_json (w : io) (s : list contents) :
  get_all w (mkFs (Some NotJson) s) = Ok [].
Proof. unfold get_all, _load; cbn. now destruct (read_fails w). Qed.

Lemma get_all_unreadable (w : io) (st : fs) :
  read_fails w = true -> get_all w st = Ok [].
Proof.
  intros H. unfold get_all, _load. rewrite H.
  now destruct (target st).
Qed.

(** Bytes that are no text make [open(...).read()] raise
    [UnicodeDecodeError], which neither [except] clause of [_load]
    names. *)
Lemma get_all_not_text (s : list contents) :
  get_all no_fault (mkFs (Some NotText) s) = Raise UnicodeDecodeError.
Proof. reflexivity. Qed.

(** An item whose conversion raises [KeyError] or [ValueError] is skipped,
    whatever stands around it. *)
Lemma get_all_loop_skips (k : string) (v : json) (idx : IndexSymbol.t) (e : exn)
    (rest : list (string * json)) (a : records_t) :
  find (fun i => String.eqb (IndexSymbol.value i) k) IndexSymbol.members = Some idx ->
  parse_record idx v = Raise e ->
  caught_by e [KeyError; ValueError] = true ->
  get_all_loop ((k, v) :: rest) a = get_all_loop rest a.
Proof. intros F P C. cbn [get_all_loop]. now rewrite F, P, C. Qed.

(** C4.  [get_all] does raise: a field that is present but is no decimal
    number makes [Decimal] raise [decimal.InvalidOperation], and an item
    that is no object makes the subscript raise [TypeError]; neither is a
    [KeyError] or a [ValueError], so both leave [get_all].  An item with
    missing fields is skipped and the other one is returned. *)
Theorem get_all_raises_on_malformed_item :
  get_all no_fault malformed_value = Raise InvalidOperation /\
  get_all no_fault malformed_item = Raise TypeError /\
  get_all no_fault missing_fields = Ok [(IndexSymbol.NASDAQ100, nasdaq)].
Proof. repeat split; vm_compute; reflexivity. Qed.

(** A failed [_save] leaves the file at [self._path] as it was. *)
Lemma save_failure_keeps_target (w : io) (st st' : fs) (data : data_t) (e : exn) :
  _save w st data = (st', Raise e) -> target st' = target st.
Proof.
  unfold _save, try_body, fails. destruct (write_fails w) as [[]|]; cbn;
    intros [= <- _]; reflexivity.
Qed.

Lemma update_failure_keeps_target (w : io) (r : ATHRecord.t) (st st' : fs) (e : exn) :
  update w r st = (st', Raise e) -> target st' = target st.
Proof.
  unfold update. destruct (_load w st) as [data|e'].
  - apply save_failure_keeps_target.
  - now intros [= <- _].
Qed.

(** C5.  A failure of the write phase is answered step by step: when the
    directory cannot be made the [OSError] itself leaves [update]; when the
    temporary file cannot be created, or [json.dump] fails, the handler
    reads the unbound [temp_path] and [UnboundLocalError] leaves [update],
    in the second case with the partial temporary file still in the
    directory; only a failure of the close or of the rename removes the
    temporary file and raises [ATHStoreError]. *)
Theorem update_write_failures (r : ATHRecord.t) (st : fs) (data : data_t) :
  _load no_fault st = Ok data ->
  update (mkIo false (Some Mkdir)) r st = (st, Raise OSError) /\
  update (mkIo false (Some Create)) r st = (st, Raise UnboundLocalError) /\
  update (mkIo false (Some Dump)) r st
  = (mkFs (target st) (NotJson :: strays st), Raise UnboundLocalError) /\
  update (mkIo false (Some Close)) r st = (st, Raise ATHStoreError) /\
  update (mkIo false (Some Replace)) r st = (st, Raise ATHStoreError).
Proof.
  intros L. unfold update.
  change (_load (mkIo false ?x) st) with (_load no_fault st).
  rewrite L. repeat split.
Qed.

Lemma update_write_failures_witness :
  update (mkIo false (Some Dump)) (recorded (hundredths 600000)) empty_dir
  = (mkFs None [NotJson], Raise UnboundLocalError).
Proof.
  apply (update_write_failures (recorded (hundredths 600000)) empty_dir []).
  reflexivity.
Defined.

(** C10.  When the backing file holds a JSON text whose top-level value
    is not an object, [get_all] returns the empty mapping and does not
    raise. *)
Theorem get_all_top_level_not_object (w : io) (j : json) (s : list contents) :
  (forall members, j <> JObj members) ->
  get_all w (mkFs (Some (Text j)) s) = Ok [].
Proof.
  intros H. unfold get_all, _load. cbn [target].
  destruct (read_fails w); [reflexivity|].
  destruct j; try reflexivity. now destruct (H members).
Qed.

Lemma get_all_top_level_not_object_witness :
  get_all no_fault (mkFs (Some (Text (JArr [JInt 1; JStr "x"]))) []) = Ok [].
Proof.
  apply get_all_top_level_not_object. intros members. discriminate.
Defined.

End StoreClaims.

(** ** Further properties of the drop analyzer *)

Section AnalyzerOrder.

Import Dec DropAnalyzer Examples.
#[local] Open Scope Q_scope.

Lemma round_half_even_mono (x y : Q) :
x <= y -> (round_half_even x <= round_half_even y)%Z.
Proof.
intros H.
pose proof (Qfloor_resp_le _ _ H) as F.
pose proof (floor_bounds x) as [X1 X2].
pose proof (floor_bounds y) as [Y1 Y2].
destruct (Z.eq_dec (Qfloor x) (Qfloor y)) as [E|N].
- destruct (round_half_even_cases x) as [[A ->]|[[A ->]|[A ->]]];
    destruct (round_half_even_cases y) as [[B ->]|[[B ->]|[B ->]]];
    cbv zeta in *; rewrite <- ?E in *; try lia; try lra;
    destruct (Z.even (Qfloor x)); lia.
- assert (L : (Qfloor x + 1 <= Qfloor y)%Z) by lia.
  destruct (round_half_even_cases x) as [[A ->]|[[A ->]|[A ->]]];
    destruct (round_half_even_cases y) as [[B ->]|[[B ->]|[B ->]]];
    cbv zeta in *; try lia;
    repeat match goal with
           | |- context [Z.even ?f] => destruct (Z.even f)
           end; lia.
Qed.

Lemma round_half_even_Z (n : Z) : round_half_even (inject_Z n) = n.
Proof.
unfold round_half_even. rewrite Qfloor_Z.
assert (C : ((inject_Z n - inject_Z n) ?= (1 # 2)) = Lt).
{ rewrite <- Qlt_alt. lra. }
now rewrite C.
Qed.

Lemma floor_tier_lt (x : Q) (inc : Z) :
(1 <= inc)%Z -> x < inject_Z (Qfloor (x / inject_Z inc) * inc + inc).
Proof.
intros Hinc. pose proof (increment_pos inc Hinc) as P.
pose proof (Qlt_floor (x / inject_Z inc)) as L.
rewrite inject_Z_plus in L. change (inject_Z 1) with 1 in L.
rewrite inject_Z_plus, inject_Z_mult.
assert (X : x == x / inject_Z inc * inject_Z inc) by (field; lra).
rewrite X at 1.
setoid_replace (inject_Z (Qfloor (x / inject_Z inc)) * inject_Z inc + inject_Z inc)
  with ((inject_Z (Qfloor (x / inject_Z inc)) + 1) * inject_Z inc) by ring.
apply Qmult_lt_compat_r; assumption.
Qed.

Lemma floor_tier_mono (x y : Q) (inc : Z) :
(1 <= inc)%Z -> x <= y ->
(Qfloor (x / inject_Z inc) * inc <= Qfloor (y / inject_Z inc) * inc)%Z.
Proof.
intros Hinc H. pose proof (increment_pos inc Hinc) as P.
apply Z.mul_le_mono_nonneg_r; [lia|].
apply Qfloor_resp_le.
unfold Qdiv. apply Qmult_le_compat_r; [exact H|].
apply Qlt_le_weak, Qinv_lt_0_compat, P.
Qed.

Lemma determine_drop_tier_nonneg_result (inc : Z) (g : Decimal) :
(1 <= inc)%Z -> (0 <= determine_drop_tier (mk (of_int inc)) g)%Z.
Proof.
intros Hinc. destruct (Qlt_le_dec (to_Q g) 0) as [Hneg|Hpos].
- rewrite determine_drop_tier_neg by assumption.
  apply Z.mul_nonneg_nonneg; [|lia].
  rewrite <- (Qfloor_Z 0). apply Qfloor_resp_le.
  apply div_increment_nonneg; [exact Hinc | apply Qabs_nonneg].
- rewrite determine_drop_tier_nonneg by exact Hpos. lia.
Qed.

Lemma multiple_pos_ge (f inc : Z) :
(1 <= inc -> 0 < f * inc -> inc <= f * inc)%Z.
Proof.
intros Hinc H.
assert (F : (0 < f)%Z) by (apply (Z.mul_pos_cancel_r _ inc); lia).
nia.
Qed.

(** The tier is positive exactly from one increment on. *)
Lemma floor_tier_pos (x : Q) (inc : Z) :
(1 <= inc)%Z -> 0 <= x ->
((0 < Qfloor (x / inject_Z inc) * inc)%Z <-> inject_Z inc <= x).
Proof.
intros Hinc Hx. pose proof (increment_pos inc Hinc) as P. split.
- intros T.
  apply Qle_trans with (inject_Z (Qfloor (x / inject_Z inc) * inc)).
  + rewrite <- Zle_Qle. now apply multiple_pos_ge.
  + now apply floor_tier_le.
- intros L.
  assert (D : inject_Z 1 <= x / inject_Z inc).
  { change (inject_Z 1) with 1. apply Qle_shift_div_l; [exact P | lra]. }
  apply Qfloor_resp_le in D. rewrite Qfloor_Z in D. nia.
Qed.

Lemma exact_gap_mono (c1 c2 a : Q) :
0 < a -> c1 <= c2 -> Spec.exact_gap c1 a <= Spec.exact_gap c2 a.
Proof.
intros Ha H. unfold Spec.exact_gap.
apply Qmult_le_compat_r; [|discriminate].
unfold Qdiv. apply Qmult_le_compat_r; [lra|].
apply Qlt_le_weak, Qinv_lt_0_compat, Ha.
Qed.

Lemma exact_gap_floor (c a : Q) :
0 < a -> 0 <= c -> - inject_Z 100 <= Spec.exact_gap c a.
Proof.
intros Ha Hc.
assert (E : Spec.exact_gap 0 a == - inject_Z 100).
{ unfold Spec.exact_gap. change (inject_Z 100) with 100. field. lra. }
rewrite <- E. now apply exact_gap_mono.
Qed.

Lemma hundredths_le (c d : Z) :
(c <= d)%Z -> to_Q (hundredths c) <= to_Q (hundredths d).
Proof.
intros H. rewrite !to_Q_hundredths_sign. rewrite Zle_Qle in H. lra.
Qed.

Lemma gap_percent_mono (self : t) (c1 c2 ath : Decimal) :
0 < to_Q ath -> to_Q c1 <= to_Q c2 ->
to_Q (calculate_gap_percent self c1 ath)
<= to_Q (calculate_gap_percent self c2 ath).
Proof.
intros Ha H.
assert (NZ : ~ to_Q ath == 0) by lra.
rewrite !calculate_gap_percent_nonzero by exact NZ.
apply hundredths_le, round_half_even_mono.
apply Qmult_le_compat_r; [|discriminate].
now apply exact_gap_mono.
Qed.

Lemma determine_drop_tier_mono (inc : Z) (g1 g2 : Decimal) :
(1 <= inc)%Z -> to_Q g1 <= to_Q g2 ->
(determine_drop_tier (mk (of_int inc)) g2
 <= determine_drop_tier (mk (of_int inc)) g1)%Z.
Proof.
intros Hinc H. destruct (Qlt_le_dec (to_Q g2) 0) as [Hneg|Hpos].
- rewrite !determine_drop_tier_neg by (assumption || lra).
  apply floor_tier_mono; [exact Hinc|].
  rewrite !Qabs_neg by lra. lra.
- rewrite (determine_drop_tier_nonneg _ g2) by exact Hpos.
  now apply determine_drop_tier_nonneg_result.
Qed.

End AnalyzerOrder.

Section AnalyzerMore.

Import Dec DropAnalyzer Examples.
#[local] Open Scope Q_scope.

(** X1.  Whatever the analyzer, the observation and the prior record,
  the result of [analyze] carries the symbol and the price of the
  observation; the all-time high it reports is the prior one or the
  current price, whichever is higher, so it is never below the current
  price nor below the prior high; a record to store is returned exactly
  when [is_new_ath] is set, that is when there is no prior record or the
  price is strictly above it, and then the result is HOLD with tier 0 and
  gap 0; BUY goes with a positive tier. *)
Theorem analyze_reports_the_running_high
  (self : t) (index_data : IndexData.t) (ath_record : option ATHRecord.t)
  (now : Cal.datetime) :
let current := IndexData.current_price index_data in
let out := analyze self index_data ath_record now in
let r := fst out in
AnalysisResult.symbol r = IndexData.symbol index_data /\
AnalysisResult.current_price r = current /\
leb current (AnalysisResult.ath_value r) = true /\
(forall prior, ath_record = Some prior ->
   leb (ATHRecord.ath_value prior) (AnalysisResult.ath_value r) = true /\
   (AnalysisResult.ath_value r = ATHRecord.ath_value prior \/
    AnalysisResult.ath_value r = current)) /\
(AnalysisResult.is_new_ath r = true <-> snd out <> None) /\
(AnalysisResult.is_new_ath r = true <->
   match ath_record with
   | None => True
   | Some prior => ltb (ATHRecord.ath_value prior) current = true
   end) /\
(AnalysisResult.is_new_ath r = true ->
   AnalysisResult.ath_value r = current /\
   AnalysisResult.ath_date r = IndexData.market_date index_data /\
   AnalysisResult.gap_percent r = zero /\
   AnalysisResult.drop_tier r = 0%Z /\
   AnalysisResult.recommendation r = HOLD) /\
(AnalysisResult.recommendation r = BUY <-> (0 < AnalysisResult.drop_tier r)%Z).
Proof.
intros current out r. subst r out. unfold analyze. fold current.
destruct ath_record as [prior|].
- unfold gtb. destruct (ltb (ATHRecord.ath_value prior) current) eqn:G; cbn.
  + split; [reflexivity|]. split; [reflexivity|]. split; [apply leb_refl|].
    split.
    { intros p [= <-]. split; [|now right].
      apply leb_true. apply ltb_true in G. lra. }
    split; [split; [discriminate | reflexivity]|].
    split; [tauto|].
    split; [intros _; repeat split|].
    split; [discriminate | intros; lia].
  + split; [reflexivity|]. split; [reflexivity|].
    split; [apply leb_true; now apply ltb_false in G|].
    split.
    { intros p [= <-]. split; [apply leb_refl | now left]. }
    split; [split; [discriminate | congruence]|].
    split; [split; discriminate|].
    split; [discriminate|].
    destruct (Z.gtb_spec (determine_drop_tier self
        (calculate_gap_percent self current (ATHRecord.ath_value prior))) 0);
      split; intros; (reflexivity || discriminate || lia).
- cbn. split; [reflexivity|]. split; [reflexivity|]. split; [apply leb_refl|].
  split; [discriminate|].
  split; [split; [discriminate | reflexivity]|].
  split; [tauto|].
  split; [intros _; repeat split|].
  split; [discriminate | intros; lia].
Qed.

(** X2.  A record that [analyze] hands back for storing is the observation
  itself: its symbol, its price as the new high, its market date, and
  the time of the call; and its value is strictly above the prior record
  whenever there was one.  Storing what [analyze] returns therefore never
  lowers a recorded high. *)
Theorem analyze_new_record_raises_the_high
  (self : t) (index_data : IndexData.t) (ath_record : option ATHRecord.t)
  (now : Cal.datetime) (new_ath : ATHRecord.t) :
snd (analyze self index_data ath_record now) = Some new_ath ->
new_ath = ATHRecord.mk (IndexData.symbol index_data)
            (IndexData.current_price index_data)
            (IndexData.market_date index_data) now /\
(forall prior, ath_record = Some prior ->
   ltb (ATHRecord.ath_value prior) (ATHRecord.ath_value new_ath) = true).
Proof.
unfold analyze. destruct ath_record as [prior|].
- unfold gtb.
  destruct (ltb (ATHRecord.ath_value prior) (IndexData.current_price index_data))
    eqn:G; cbn; [|discriminate].
  intros [= <-]. split; [reflexivity|]. intros p [= <-]. exact G.
- cbn. intros [= <-]. split; [reflexivity|]. discriminate.
Qed.

Lemma analyze_new_record_raises_the_high_witness :
ltb (hundredths 600000) (hundredths 610000) = true.
Proof.
exact (proj2 (analyze_new_record_raises_the_high analyzer5
                (observed (hundredths 610000))
                (Some (recorded (hundredths 600000))) (at18 jan15)
                (ATHRecord.mk IndexSymbol.SP500 (hundredths 610000) jan15 (at18 jan15))
                eq_refl)
             (recorded (hundredths 600000)) eq_refl).
Defined.

(** X3.  For an increment in 1..100 and a gap below zero the tier is the
  largest multiple of the increment that the magnitude of the gap
  reaches: [tier <= |gap| < tier + increment]. *)
Theorem drop_tier_is_the_largest_multiple
  (inc : Z) (self : t) (gap_percent : Decimal) :
__init__ (PyInt inc) = Ok self ->
to_Q gap_percent <= 0 ->
let tier := determine_drop_tier self gap_percent in
(0 <= tier)%Z /\
inject_Z tier <= Qabs (to_Q gap_percent) /\
Qabs (to_Q gap_percent) < inject_Z (tier + inc).
Proof.
intros Hself Hg tier. apply init_inv in Hself as [Hinc ->].
assert (Hinc1 : (1 <= inc)%Z) by lia.
split; [now apply determine_drop_tier_nonneg_result|].
subst tier. destruct (Qlt_le_dec (to_Q gap_percent) 0) as [Hneg|Hpos].
- rewrite determine_drop_tier_neg by assumption. split.
  + apply floor_tier_le; [exact Hinc1 | apply Qabs_nonneg].
  + now apply floor_tier_lt.
- rewrite determine_drop_tier_nonneg by exact Hpos.
  assert (Z : to_Q gap_percent == 0) by lra.
  rewrite Z. change (Qabs 0) with 0. split; [discriminate|].
  change 0 with (inject_Z 0). rewrite <- Zlt_Qlt. lia.
Qed.

Lemma drop_tier_is_the_largest_multiple_witness :
let tier := determine_drop_tier analyzer5 (hundredths (-1230)) in
inject_Z tier <= Qabs (to_Q (hundredths (-1230))) /\
Qabs (to_Q (hundredths (-1230))) < inject_Z (tier + 5).
Proof.
destruct (drop_tier_is_the_largest_multiple 5%Z analyzer5 (hundredths (-1230)))
  as (_ & H1 & H2).
- reflexivity.
- vm_compute. discriminate.
- split; [exact H1 | exact H2].
Defined.

(** X4.  A deeper gap never gives a smaller tier: for an increment in
  1..100, [g1 <= g2] gives [tier g2 <= tier g1], whatever the signs. *)
Theorem drop_tier_grows_with_the_drop
  (inc : Z) (self : t) (g1 g2 : Decimal) :
__init__ (PyInt inc) = Ok self ->
to_Q g1 <= to_Q g2 ->
(determine_drop_tier self g2 <= determine_drop_tier self g1)%Z.
Proof.
intros Hself H. apply init_inv in Hself as [Hinc ->].
apply determine_drop_tier_mono; [lia | exact H].
Qed.

Lemma drop_tier_grows_with_the_drop_witness :
(determine_drop_tier analyzer5 (hundredths (-730))
 <= determine_drop_tier analyzer5 (hundredths (-1230)))%Z.
Proof.
apply (drop_tier_grows_with_the_drop 5%Z analyzer5).
- reflexivity.
- vm_compute. discriminate.
Defined.

(** X5.  For an increment in 1..100, [analyze] recommends BUY exactly
  when the gap it reports is at or below minus the increment; a BUY is
  never a new all-time high and returns no record to store. *)
Theorem analyze_buys_from_one_increment
  (inc : Z) (self : t) (index_data : IndexData.t)
  (ath_record : option ATHRecord.t) (now : Cal.datetime) :
__init__ (PyInt inc) = Ok self ->
let out := analyze self index_data ath_record now in
let r := fst out in
(AnalysisResult.recommendation r = BUY <->
 to_Q (AnalysisResult.gap_percent r) <= - inject_Z inc) /\
(AnalysisResult.recommendation r = BUY ->
 AnalysisResult.is_new_ath r = false /\ snd out = None /\
 (inc <= AnalysisResult.drop_tier r)%Z).
Proof.
intros Hself out r. apply init_inv in Hself as [Hinc ->].
assert (Hinc1 : (1 <= inc)%Z) by lia.
pose proof (increment_pos inc Hinc1) as P.
assert (New : forall res : AnalysisResult.t,
  AnalysisResult.gap_percent res = zero ->
  AnalysisResult.recommendation res = HOLD ->
  (AnalysisResult.recommendation res = BUY <->
   to_Q (AnalysisResult.gap_percent res) <= - inject_Z inc) /\
  (AnalysisResult.recommendation res = BUY ->
   AnalysisResult.is_new_ath res = false /\ snd out = None /\
   (inc <= AnalysisResult.drop_tier res)%Z)).
{ intros res G R. rewrite G, R, to_Q_zero. split.
  - split; [discriminate | intros; lra].
  - discriminate. }
subst r out. unfold analyze in *. destruct ath_record as [prior|].
- destruct (gtb (IndexData.current_price index_data) (ATHRecord.ath_value prior)).
  + now apply New.
  + clear New.
    cbn [fst snd AnalysisResult.gap_percent AnalysisResult.drop_tier
         AnalysisResult.recommendation AnalysisResult.is_new_ath].
    set (g := calculate_gap_percent _ _ _).
    assert (T : (0 < determine_drop_tier (mk (of_int inc)) g)%Z <->
                to_Q g <= - inject_Z inc).
    { destruct (Qlt_le_dec (to_Q g) 0) as [Hneg|Hpos].
      - rewrite determine_drop_tier_neg by assumption.
        rewrite floor_tier_pos by (assumption || apply Qabs_nonneg).
        rewrite Qabs_neg by lra. split; intros; lra.
      - rewrite determine_drop_tier_nonneg by exact Hpos.
        split; [lia | intros; lra]. }
    assert (M : (0 < determine_drop_tier (mk (of_int inc)) g)%Z ->
                (inc <= determine_drop_tier (mk (of_int inc)) g)%Z).
    { destruct (Qlt_le_dec (to_Q g) 0) as [Hneg|Hpos].
      - rewrite determine_drop_tier_neg by assumption.
      now apply multiple_pos_ge.
      - rewrite determine_drop_tier_nonneg by exact Hpos. lia. }
    destruct (Z.gtb_spec (determine_drop_tier (mk (of_int inc)) g) 0) as [Gt|Le].
    * split; [split; [intros _; now apply T | reflexivity]|].
      intros _. repeat split. now apply M.
    * split; [split; [discriminate|]|discriminate].
      intros L. apply T in L. lia.
- now apply New.
Qed.

Lemma analyze_buys_from_one_increment_witness :
AnalysisResult.recommendation
  (fst (analyze analyzer5 (observed (hundredths 570000))
          (Some (recorded (hundredths 600000))) (at18 jan15))) = BUY.
Proof.
apply (proj1 (analyze_buys_from_one_increment 5%Z analyzer5
                (observed (hundredths 570000))
                (Some (recorded (hundredths 600000))) (at18 jan15) eq_refl)).
vm_compute. discriminate.
Defined.

(** X6.  For an increment in 1..100, a positive all-time high and a
  price between zero and that high, the gap lies between -100 and 0 and
  the tier between 0 and 100. *)
Theorem gap_and_tier_stay_within_100
  (inc : Z) (self : t) (current ath : Decimal) :
__init__ (PyInt inc) = Ok self ->
0 < to_Q ath -> 0 <= to_Q current -> to_Q current <= to_Q ath ->
let g := calculate_gap_percent self current ath in
- inject_Z 100 <= to_Q g /\ to_Q g <= 0 /\
(0 <= determine_drop_tier self g <= 100)%Z.
Proof.
intros Hself Ha Hc Hle g. apply init_inv in Hself as [Hinc ->].
assert (Hinc1 : (1 <= inc)%Z) by lia.
assert (NZ : ~ to_Q ath == 0) by lra.
assert (L : - inject_Z 100 <= to_Q g).
{ subst g. rewrite calculate_gap_percent_nonzero by exact NZ.
  set (k := round_half_even _).
  assert (R : (-10000 <= k)%Z).
  { subst k. rewrite <- (round_half_even_Z (-10000)) at 1.
    apply round_half_even_mono.
    pose proof (exact_gap_floor _ _ Ha Hc) as F.
    change (inject_Z 100) with 100 in *. change (inject_Z (-10000)) with (-10000).
    lra. }
  rewrite to_Q_hundredths_sign. rewrite Zle_Qle in R.
  change (inject_Z (-10000)) with (-10000) in R.
  change (inject_Z 100) with 100. lra. }
assert (U : to_Q g <= 0) by (apply gap_nonpos; lra).
split; [exact L|]. split; [exact U|].
split; [now apply determine_drop_tier_nonneg_result|].
destruct (Qlt_le_dec (to_Q g) 0) as [Hneg|Hpos].
- rewrite determine_drop_tier_neg by assumption.
  pose proof (floor_tier_le (Qabs (to_Q g)) inc Hinc1 (Qabs_nonneg _)) as B.
  assert (A : Qabs (to_Q g) == - to_Q g) by (apply Qabs_neg; lra).
  rewrite Zle_Qle. change (inject_Z 100) with 100 in *. lra.
- rewrite determine_drop_tier_nonneg by exact Hpos. lia.
Qed.

Lemma gap_and_tier_stay_within_100_witness :
let g := calculate_gap_percent analyzer5 (hundredths 526500) (hundredths 600000) in
- inject_Z 100 <= to_Q g /\ to_Q g <= 0 /\
(0 <= determine_drop_tier analyzer5 g <= 100)%Z.
Proof.
apply (gap_and_tier_stay_within_100 5%Z analyzer5).
- reflexivity.
- reflexivity.
- vm_compute. discriminate.
- vm_compute. discriminate.
Defined.

(** X7.  Against one positive all-time high, a lower price never gives a
  smaller gap magnitude nor a smaller tier: for [c1 <= c2] the gap of [c1]
  is at or below the gap of [c2] and the tier of [c1] at or above the tier
  of [c2]. *)
Theorem lower_price_never_lowers_the_tier
  (inc : Z) (self : t) (c1 c2 ath : Decimal) :
__init__ (PyInt inc) = Ok self ->
0 < to_Q ath -> to_Q c1 <= to_Q c2 ->
to_Q (calculate_gap_percent self c1 ath)
<= to_Q (calculate_gap_percent self c2 ath) /\
(determine_drop_tier self (calculate_gap_percent self c2 ath)
 <= determine_drop_tier self (calculate_gap_percent self c1 ath))%Z.
Proof.
intros Hself Ha H.
pose proof (gap_percent_mono self c1 c2 ath Ha H) as G.
split; [exact G|].
apply init_inv in Hself as [Hinc ->].
apply determine_drop_tier_mono; [lia | exact G].
Qed.

Lemma lower_price_never_lowers_the_tier_witness :
(determine_drop_tier analyzer5
   (calculate_gap_percent analyzer5 (hundredths 570000) (hundredths 600000))
 <= determine_drop_tier analyzer5
      (calculate_gap_percent analyzer5 (hundredths 526500) (hundredths 600000)))%Z.
Proof.
apply (lower_price_never_lowers_the_tier 5%Z analyzer5).
- reflexivity.
- reflexivity.
- vm_compute. discriminate.
Defined.

End AnalyzerMore.
